(** * bot/library.go: the media library tree and its constructor

    A shallow embedding of [NewLibrary] and of the [Playable]
    implementations of package [bot], together with the parts of Go's
    [strings], [path/filepath], [fmt] and [errors] packages that the
    constructor calls.  The file system is an oracle [ReadDir] from path
    strings to directory listings, exactly the way the constructor sees it;
    recursion into subdirectories is bounded by a call-depth budget. *)

From Stdlib Require Import Ascii.
From stdpp Require Import base list strings gmap.

(** ** Go's [strings] package *)

Module strings.

(** [strings.Index]: position of the first occurrence of [substr] in [s];
    [None] stands for Go's [-1]. *)
Fixpoint Index (s substr : string) : option nat :=
  if String.prefix substr s then Some 0
  else match s with
       | EmptyString => None
       | String _ s' => S <$> Index s' substr
       end.

(** [strings.Cut]: slices [s] around the first instance of [sep]. *)
Definition Cut (s sep : string) : string * string * bool :=
  match Index s sep with
  | Some i =>
      (String.substring 0 i s,
       String.substring (i + String.length sep)
                        (String.length s - (i + String.length sep)) s,
       true)
  | None => (s, "", false)
  end.

(** [strings.Join] for the separator-joined rendering of path elements. *)
Fixpoint Join (elems : list string) (sep : string) : string :=
  match elems with
  | [] => ""
  | [e] => e
  | e :: es => e +:+ sep +:+ Join es sep
  end.

End strings.

(** ** Go's [path/filepath] package, Unix flavour *)

Module filepath.

Definition Separator : ascii := "/"%char.

Definition IsPathSeparator (c : ascii) : bool := bool_decide (c = Separator).

(** The elements of a path between separators ([""] between two adjacent
    separators, before a leading one and after a trailing one). *)
Fixpoint elements (path : string) : list string :=
  match path with
  | EmptyString => [""]
  | String c path' =>
      if IsPathSeparator c then "" :: elements path'
      else match elements path' with
           | e :: es => String c e :: es
           | [] => [String c ""]
           end
  end.

Definition rooted (path : string) : bool :=
  match path with
  | String c _ => IsPathSeparator c
  | EmptyString => false
  end.

(** One iteration of the loop of [filepath.Clean] on the element [e].
    [out] holds the elements written so far, last one first.  The four
    cases are the ones of the source: empty element, [.], [..] and a real
    element.  A [..] backtracks over a real element when there is one,
    is dropped at the root, and is appended to a leading run of [..]
    otherwise. *)
Definition clean_elem (rooted : bool) (out : list string) (e : string)
  : list string :=
  if decide (e = "") then out
  else if decide (e = ".") then out
  else if decide (e = "..") then
    match out with
    | top :: out' =>
        if decide (top = "..") then (if rooted then out else e :: out)
        else out'
    | [] => if rooted then out else [e]
    end
  else e :: out.

(** [filepath.Clean]. *)
Definition Clean (path : string) : string :=
  if decide (path = "") then "."
  else
    let r := rooted path in
    let out := foldl (clean_elem r) [] (elements path) in
    match out, r with
    | [], true => "/"
    | [], false => "."
    | _, true => "/" +:+ strings.Join (reverse out) "/"
    | _, false => strings.Join (reverse out) "/"
    end.

(** [filepath.Join] of two elements: empty elements are ignored and the
    result is cleaned; all elements empty gives the empty string. *)
Definition Join (a b : string) : string :=
  if decide (a = "") then
    (if decide (b = "") then "" else Clean b)
  else Clean (a +:+ "/" +:+ b).

Fixpoint drop_separators (s : string) : string :=
  match s with
  | String c s' => if IsPathSeparator c then drop_separators s' else s
  | EmptyString => s
  end.

Fixpoint until_separator (s : string) : string :=
  match s with
  | String c s' => if IsPathSeparator c then "" else String c (until_separator s')
  | EmptyString => ""
  end.

(** [filepath.Base]: the last element of the path, after trailing
    separators are removed; ["."] for the empty path and ["/"] for a path
    of separators only. *)
Definition Base (path : string) : string :=
  if decide (path = "") then "."
  else
    let last := String.rev (until_separator (drop_separators (String.rev path))) in
    if decide (last = "") then "/" else last.

(** [filepath.IsAbs]. *)
Definition IsAbs (path : string) : bool := rooted path.

End filepath.

(** ** Errors: the values [fmt.Errorf] and [os.ReadDir] produce *)

(** The three package-level error variables.  Each is one allocation made
    at package initialisation; identity with one of them is what
    [errors.Is] tests. *)
Inductive sentinel : Set :=
| ErrExtensionSet
| ErrExtensionsOverlap
| ErrEmptyLibrary.

Global Instance sentinel_eq_dec : EqDecision sentinel.
Proof. solve_decision. Defined.

(** What [os.ReadDir] reports when it fails: a [*fs.PathError].  Its
    field [Err] is the underlying [syscall.Errno], kept by its message. *)
Record PathError : Set := mkPathError { Op : string; Path : string; Err : string }.

(** Error values.  [errorString] is a value freshly allocated by
    [fmt.Errorf] with a format that has no [%w] (so it is never identical
    to a sentinel); [wrapError] is the value [fmt.Errorf] builds for a
    format with one [%w]: the formatted message and the wrapped operand;
    [osError] is a [*fs.PathError] and [syscallErrno] the [syscall.Errno]
    it unwraps to. *)
Inductive error : Set :=
| Sentinel (s : sentinel)
| errorString (s : string)
| wrapError (msg : string) (err : error)
| osError (e : PathError)
| syscallErrno (msg : string).

Coercion Sentinel : sentinel >-> error.

Definition sentinel_text (s : sentinel) : string :=
  match s with
  | ErrExtensionSet =>
      "empty extension set: at least one media extension must be specified"
  | ErrExtensionsOverlap =>
      "playlist extension set may not overlap media file extension set"
  | ErrEmptyLibrary => "library is empty"
  end.

(** The [Error()] method. *)
Definition Error (e : error) : string :=
  match e with
  | Sentinel s => sentinel_text s
  | errorString s => s
  | wrapError msg _ => msg
  | osError e => Op e +:+ " " +:+ Path e +:+ ": " +:+ Err e
  | syscallErrno msg => msg
  end.

(** [errors.Unwrap]: [fmt]'s [wrapError] gives its operand, a
    [*fs.PathError] gives its [Err]; the other values have no [Unwrap]
    method. *)
Definition Unwrap (e : error) : option error :=
  match e with
  | wrapError _ err => Some err
  | osError e => Some (syscallErrno (Err e))
  | _ => None
  end.

(** [errors.Is] against one of the package's sentinels: identity with the
    target somewhere along the [Unwrap] chain.  A [*fs.PathError] is not a
    sentinel and unwraps to a [syscall.Errno], whose [Is] method matches
    none of the package's sentinels. *)
Fixpoint errors_Is (e : error) (target : sentinel) : bool :=
  match e with
  | Sentinel s => bool_decide (s = target)
  | wrapError _ err => errors_Is err target
  | errorString _ => false
  | osError _ => false
  | syscallErrno _ => false
  end.

(** The innermost error of an [Unwrap] chain. *)
Fixpoint cause (e : error) : error :=
  match e with
  | wrapError _ err => cause err
  | osError e => syscallErrno (Err e)
  | _ => e
  end.

(** [errors.As] with a target of type [*fs.PathError]: the first
    [*fs.PathError] along the [Unwrap] chain. *)
Fixpoint errors_As_PathError (e : error) : option PathError :=
  match e with
  | wrapError _ err => errors_As_PathError err
  | osError e => Some e
  | _ => None
  end.


(** ** The data model of package [bot] *)

(** A single media file loaded from a library on disk. *)
Record mediaFile : Set := mkMediaFile {
  mediaFile_path : string;
  mediaFile_title : string
}.

(** A playlist file. *)
Record playlistFile : Set := mkPlaylistFile {
  playlistFile_paths : list string;
  playlistFile_title : string
}.

(** [Library] and the dynamic types an interface value of type [Playable]
    can hold in this package: [mediaFile], [playlistFile], and [*Library]
    (whose three methods have pointer receivers). *)
#[local] Set Warnings "-register-all".
Inductive Library : Set :=
| mkLibrary (entries : list Playable) (nested : list Library) (root : string)
with Playable : Set :=
| PMediaFile (m : mediaFile)
| PPlaylistFile (p : playlistFile)
| PLibrary (l : Library).

(** The fields of [Library]. *)
Definition entries (l : Library) : list Playable :=
  match l with mkLibrary es _ _ => es end.
Definition nested (l : Library) : list Library :=
  match l with mkLibrary _ ns _ => ns end.
Definition root (l : Library) : string :=
  match l with mkLibrary _ _ r => r end.

(** [append] to one of the two slices of a [Library]. *)
Definition append_entry (l : Library) (e : Playable) : Library :=
  mkLibrary (entries l ++ [e]) (nested l) (root l).
Definition append_nested (l : Library) (nest : Library) : Library :=
  mkLibrary (entries l) (nested l ++ [nest]) (root l).

(** Methods of [mediaFile]. *)
Definition mediaFile_Files (m : mediaFile) : list string := [mediaFile_path m].
Definition mediaFile_Title (m : mediaFile) : string := mediaFile_title m.
Definition mediaFile_Nested (m : mediaFile) : list Library := [].

(** Methods of [playlistFile]. *)
Definition playlistFile_Files (p : playlistFile) : list string := playlistFile_paths p.
Definition playlistFile_Title (p : playlistFile) : string := playlistFile_title p.
Definition playlistFile_Nested (p : playlistFile) : list Library := [].

(** [Library.Root]. *)
Definition Library_Root (l : Library) : string := root l.

(** [Library.Files]: the loop appends [fi.path] for each entry whose
    dynamic type is [mediaFile] and nothing for any other entry. *)
Fixpoint Files_loop (f : list string) (es : list Playable) : list string :=
  match es with
  | [] => f
  | e :: es' =>
      match e with
      | PMediaFile fi => Files_loop (f ++ [mediaFile_path fi]) es'
      | _ => Files_loop f es'
      end
  end.

Definition Library_Files (l : Library) : list string := Files_loop [] (entries l).

(** [Library.Title]. *)
Definition Library_Title (l : Library) : string := filepath.Base (root l).

(** [Library.Nested]. *)
Definition Library_Nested (l : Library) : list Library := nested l.

(** The [Playable] interface: method calls dispatch on the dynamic type. *)
Definition Files (p : Playable) : list string :=
  match p with
  | PMediaFile m => mediaFile_Files m
  | PPlaylistFile p => playlistFile_Files p
  | PLibrary l => Library_Files l
  end.

Definition Title (p : Playable) : string :=
  match p with
  | PMediaFile m => mediaFile_Title m
  | PPlaylistFile p => playlistFile_Title p
  | PLibrary l => Library_Title l
  end.

Definition Nested (p : Playable) : list Library :=
  match p with
  | PMediaFile m => mediaFile_Nested m
  | PPlaylistFile p => playlistFile_Nested p
  | PLibrary l => Library_Nested l
  end.

(** [loadSingleFile] and [loadPlaylistFile] mutate the receiver and return
    an error that is always nil; here they return the updated receiver
    with it. *)
Definition loadSingleFile (l : Library) (path : string) : Library * option error :=
  (append_entry l (PMediaFile (mkMediaFile path (filepath.Base path))), None).

Definition loadPlaylistFile (l : Library) (path : string) : Library * option error :=
  (append_entry l (PPlaylistFile (mkPlaylistFile [path] (filepath.Base path))), None).

(** ** The file system as the constructor sees it *)

(** An [os.DirEntry], reduced to the two methods the constructor calls. *)
Record DirEntry : Set := mkDirEntry { Name : string; IsDir : bool }.

(** [os.ReadDir]: the listing of a directory, or the error. *)
Definition FS : Set := string -> list DirEntry + PathError.

(** What a call of [NewLibrary] comes to: its two results, or the call
    depth budget ran out before it returned. *)
Inductive outcome : Set :=
| OutOfFuel
| Returned (lib : Library) (err : option error).

(** The lookup tables [ext] and [pext]: Go maps with [struct{}] values. *)
Fixpoint ext_table (ext : gset string) (extensions : list string) : gset string :=
  match extensions with
  | [] => ext
  | e :: es => ext_table ({[e]} ∪ ext) es
  end.

(** The loop that fills [pext]; it stops at the first playlist extension
    found in [ext] and hands that extension back. *)
Fixpoint pext_table (ext pext : gset string) (playlistExtensions : list string)
  : string + gset string :=
  match playlistExtensions with
  | [] => inr pext
  | e :: es =>
      if decide (e ∈ ext) then inl e
      else pext_table ext ({[e]} ∪ pext) es
  end.

Section NewLibrary.

(** The file system, and [strconv.Quote] by which [fmt] renders [%q]. *)
Variable ReadDir : FS.
Variable Quote : string -> string.

(** The body of the [for _, f := range fs] loop with its early returns.
    [rec] is the recursive call of [NewLibrary] with the same extension
    lists.  The first component is the list of directories read, in
    order. *)
Fixpoint NewLibrary_loop (rec : string -> list string * outcome)
    (root : string) (ext pext : gset string)
    (lib : Library) (fs : list DirEntry) : list string * outcome :=
  match fs with
  | [] => ([], Returned lib None)
  | f :: fs' =>
      let e := (strings.Cut (Name f) ".").1.2 in
      let path := filepath.Join root (Name f) in
      if IsDir f then
        match rec path with
        | (t, OutOfFuel) => (t, OutOfFuel)
        | (t, Returned nest (Some err)) =>
            (t, Returned lib
                  (Some (wrapError
                           ("open library " +:+ root +:+ ": " +:+ Error err) err)))
        | (t, Returned nest None) =>
            let '(t', o) :=
              NewLibrary_loop rec root ext pext (append_nested lib nest) fs' in
            (t ++ t', o)
        end
      else
        let ef := bool_decide (e ∈ ext) in
        let pef := bool_decide (e ∈ pext) in
        if ef then
          match loadSingleFile lib path with
          | (lib', Some err) =>
              ([], Returned lib'
                     (Some (wrapError
                              ("open library " +:+ root +:+ ": file " +:+ Name f
                                 +:+ ": " +:+ Error err) err)))
          | (lib', None) => NewLibrary_loop rec root ext pext lib' fs'
          end
        else if pef then
          match loadPlaylistFile lib path with
          | (lib', Some err) =>
              ([], Returned lib'
                     (Some (wrapError
                              ("open library " +:+ root +:+ ": playlist " +:+ Name f
                                 +:+ ": " +:+ Error err) err)))
          | (lib', None) => NewLibrary_loop rec root ext pext lib' fs'
          end
        else NewLibrary_loop rec root ext pext lib fs'
  end.

(** [NewLibrary].  [fuel] bounds the depth of the recursion. *)
Fixpoint NewLibrary (fuel : nat) (root : string)
    (extensions playlistExtensions : list string) : list string * outcome :=
  match fuel with
  | O => ([], OutOfFuel)
  | S fuel' =>
      let lib := mkLibrary [] [] root in
      if decide (length extensions = 0) then
        ([], Returned lib
               (Some (wrapError
                        ("open library " +:+ root +:+ ": " +:+ Error ErrExtensionSet)
                        ErrExtensionSet)))
      else
        let ext := ext_table ∅ extensions in
        match pext_table ext ∅ playlistExtensions with
        | inl e =>
            ([], Returned lib
                   (Some (wrapError
                            ("open library " +:+ root +:+ ": playlist extension "
                               +:+ Quote e +:+ ": " +:+ Error ErrExtensionsOverlap)
                            ErrExtensionsOverlap)))
        | inr pext =>
            match ReadDir root with
            | inr err =>
                ([root], Returned lib
                           (Some (wrapError
                                    ("open library " +:+ root +:+ ": "
                                       +:+ Error (osError err))
                                    (osError err))))
            | inl fs =>
                if decide (length fs = 0) then
                  ([root], Returned lib
                             (Some (errorString
                                      ("open library " +:+ root +:+ ": "
                                         +:+ Error ErrEmptyLibrary))))
                else
                  let '(t, o) :=
                    NewLibrary_loop
                      (fun path => NewLibrary fuel' path extensions playlistExtensions)
                      root ext pext lib fs in
                  (root :: t, o)
            end
        end
  end.

End NewLibrary.

(** ** Concrete file systems *)

(** A file system given by the table of its directories; any other path
    fails to open. *)
Definition fs_of (dirs : list (string * list DirEntry)) : FS :=
  fun name =>
    match list_find (fun d => d.1 = name) dirs with
    | Some (_, d) => inl d.2
    | None => inr (mkPathError "open" name "no such file or directory")
    end.

Definition file (name : string) : DirEntry := mkDirEntry name false.
Definition dir (name : string) : DirEntry := mkDirEntry name true.

(** [strconv.Quote] on strings that need no escaping. *)
Definition quote_plain (s : string) : string :=
  String (ascii_of_nat 34) (s +:+ String (ascii_of_nat 34) "").

(** One directory with a media file, a playlist and a picture. *)
Definition music_fs : FS :=
  fs_of [("/music", [file "a.mp3"; file "b.m3u"; file "c.png"])].

(** The same directory reached through a relative path. *)
Definition relative_fs : FS :=
  fs_of [("music", [file "a.mp3"; file "b.m3u"; file "c.png"])].

(** One file without extension. *)
Definition radio_fs : FS := fs_of [("/srv", [file "radio"])].

(** A subdirectory whose only child is a directory with no entries. *)
Definition hollow_fs : FS :=
  fs_of [("/lib", [dir "sub"]);
         ("/lib/sub", [dir "empty"]);
         ("/lib/sub/empty", [])].

(** A media file followed by a directory with no entries. *)
Definition partial_fs : FS :=
  fs_of [("/p", [file "a.mp3"; dir "sub"; file "z.mp3"]);
         ("/p/sub", [])].

(** Subdirectories that hold nothing playable at any depth. *)
Definition barren_fs : FS :=
  fs_of [("/lib", [dir "Album"]);
         ("/lib/Album", [file "cover.png"; dir "notes"]);
         ("/lib/Album/notes", [file "readme.txt"])].

(** ** Vocabulary of the statements *)

(** The extension the constructor classifies a name by. *)
Definition extension (name : string) : string := (strings.Cut name ".").1.2.

(** The path the constructor gives to the entry [f] of directory [d]. *)
Definition entry_path (d : string) (f : DirEntry) : string :=
  filepath.Join d (Name f).

(** The leaf a directory entry contributes to [entries], if any, by
    membership of its extension in the two lookup tables. *)
Definition leaf_in (d : string) (ext pext : gset string) (f : DirEntry)
  : option Playable :=
  if IsDir f then None
  else if bool_decide (extension (Name f) ∈ ext) then
    Some (PMediaFile (mkMediaFile (entry_path d f) (filepath.Base (entry_path d f))))
  else if bool_decide (extension (Name f) ∈ pext) then
    Some (PPlaylistFile (mkPlaylistFile [entry_path d f] (filepath.Base (entry_path d f))))
  else None.

(** The same in terms of the two extension lists the caller passes. *)
Definition is_media (extensions : list string) (f : DirEntry) : bool :=
  negb (IsDir f) && bool_decide (extension (Name f) ∈ extensions).

Definition is_playlist (extensions playlistExtensions : list string) (f : DirEntry) : bool :=
  negb (IsDir f) && negb (bool_decide (extension (Name f) ∈ extensions))
  && bool_decide (extension (Name f) ∈ playlistExtensions).

Definition leaf (d : string) (extensions playlistExtensions : list string)
    (f : DirEntry) : option Playable :=
  if is_media extensions f then
    Some (PMediaFile (mkMediaFile (entry_path d f) (filepath.Base (entry_path d f))))
  else if is_playlist extensions playlistExtensions f then
    Some (PPlaylistFile (mkPlaylistFile [entry_path d f] (filepath.Base (entry_path d f))))
  else None.

(** The paths of the entries whose dynamic type is [mediaFile]. *)
Definition media_path (e : Playable) : option string :=
  match e with
  | PMediaFile m => Some (mediaFile_path m)
  | _ => None
  end.

(** The nodes of a library tree: the library itself and the nodes of its
    nested libraries. *)
Inductive node_of : Library -> Library -> Prop :=
| node_here l : node_of l l
| node_below l c n : c ∈ nested l -> node_of c n -> node_of l n.

(** Error kinds of the specification, read off a returned error: the
    innermost error of the chain decides. *)
Definition is_EmptyLibrary (e : error) : Prop :=
  exists d, cause e = errorString ("open library " +:+ d +:+ ": " +:+ Error ErrEmptyLibrary).

Definition is_ExtensionsOverlap (e : error) : Prop :=
  cause e = Sentinel ErrExtensionsOverlap.

(** A directory that holds nothing playable down to depth [depth], and no
    directory without entries: it lists at least one entry, its files have
    unrecognised extensions and its subdirectories are of the same kind. *)
Fixpoint barren (ReadDir : FS) (extensions playlistExtensions : list string)
    (depth : nat) (d : string) : bool :=
  match depth with
  | O => false
  | S depth' =>
      match ReadDir d with
      | inr _ => false
      | inl fs =>
          negb (bool_decide (fs = [])) &&
          forallb (fun f =>
                     if IsDir f then
                       barren ReadDir extensions playlistExtensions depth' (entry_path d f)
                     else
                       negb (bool_decide (extension (Name f) ∈ extensions)) &&
                       negb (bool_decide (extension (Name f) ∈ playlistExtensions)))
                  fs
      end
  end.

(** The tree below [d] is at most [depth] directories deep: reading [d]
    fails, or every directory it lists is, by its path, at most
    [depth - 1] deep. *)
Fixpoint shallow (ReadDir : FS) (depth : nat) (d : string) : bool :=
  match depth with
  | O => false
  | S depth' =>
      match ReadDir d with
      | inr _ => true
      | inl fs =>
          forallb (fun f => if IsDir f then shallow ReadDir depth' (entry_path d f)
                            else true) fs
      end
  end.

(** ** [Library.String] *)

(** The newline [fmt.Fprintln] and the [\n] of the formats write. *)
Definition newline : string := String (ascii_of_nat 10) "".

(** The second loop of [Library.String]: one line for each entry, with the
    playlist marker when the dynamic type of the entry is [playlistFile].
    [sb] is the content of the [strings.Builder]. *)
Fixpoint String_entries (sb : string) (es : list Playable) : string :=
  match es with
  | [] => sb
  | f :: es' =>
      match f with
      | PPlaylistFile _ =>
          String_entries (sb +:+ "[playlist] " +:+ Title f +:+ newline) es'
      | _ => String_entries (sb +:+ Title f +:+ newline) es'
      end
  end.

(** [Library.String]: the nested libraries first, each under a line with
    its title and followed by its own dump and a newline, then the
    entries. *)
Fixpoint Library_String (l : Library) : string :=
  match l with
  | mkLibrary es ns _ =>
      String_entries
        ((fix nested_loop (sb : string) (ns : list Library) : string :=
            match ns with
            | [] => sb
            | d :: ns' =>
                nested_loop
                  (sb +:+ "[dir] -----" +:+ Library_Title d +:+ "-----" +:+ newline
                      +:+ Library_String d +:+ newline) ns'
            end) "" ns)
        es
  end.

(** ** [mumbledj.HasPermission] *)

(** The loop over [dj.conf.Permissions.Admins]. *)
Fixpoint Admins_loop (username : string) (admins : list string) : bool :=
  match admins with
  | [] => false
  | adminName :: admins' =>
      if decide (username = adminName) then true else Admins_loop username admins'
  end.

(** [HasPermission].  The declaration of the configuration type is not
    among the sources; the two fields of [dj.conf.Permissions] the method
    reads, [AdminsEnabled] and [Admins], are its first two arguments. *)
Definition HasPermission (AdminsEnabled : bool) (Admins : list string)
    (username : string) (command : bool) : bool :=
  if AdminsEnabled && command then Admins_loop username Admins
  else true.

(** ** Further vocabulary *)

(** A name as a directory listing gives it: not empty, not [.] or [..],
    and without separator. *)
Fixpoint has_separator (s : string) : bool :=
  match s with
  | EmptyString => false
  | String c s' => filepath.IsPathSeparator c || has_separator s'
  end.

Definition valid_name (name : string) : bool :=
  negb (bool_decide (name = "")) && negb (bool_decide (name = "."))
  && negb (bool_decide (name = "..")) && negb (has_separator name).

(** Every directory of the tree below [d], down to depth [depth], can be
    read and lists at least one entry. *)
Fixpoint sound (ReadDir : FS) (depth : nat) (d : string) : bool :=
  match depth with
  | O => false
  | S depth' =>
      match ReadDir d with
      | inr _ => false
      | inl fs =>
          negb (bool_decide (fs = [])) &&
          forallb (fun f => if IsDir f then sound ReadDir depth' (entry_path d f)
                            else true) fs
      end
  end.

(** The roots of the nodes of a library tree, parents before children and
    children in order. *)
Fixpoint tree_roots (l : Library) : list string :=
  match l with
  | mkLibrary _ ns r =>
      r :: (fix below (ns : list Library) : list string :=
              match ns with
              | [] => []
              | n :: ns' => tree_roots n ++ below ns'
              end) ns
  end.

(** [x] is [d] or a directory that a listing below [d] names as a
    directory. *)
Inductive reachable (ReadDir : FS) : string -> string -> Prop :=
| reach_here d : reachable ReadDir d d
| reach_step d fs f x :
    ReadDir d = inl fs -> f ∈ fs -> IsDir f = true ->
    reachable ReadDir (entry_path d f) x -> reachable ReadDir d x.

(** [ds] descends from [d]: each directory is named, as a directory, by
    the listing of the one before. *)
Fixpoint descends (ReadDir : FS) (d : string) (ds : list string) : Prop :=
  match ds with
  | [] => True
  | x :: ds' =>
      (exists fs f, ReadDir d = inl fs /\ f ∈ fs /\ IsDir f = true /\
                    x = entry_path d f) /\
      descends ReadDir x ds'
  end.

(** The message that names the directories [ds] one after the other and
    ends with [final]. *)
Fixpoint trail (ds : list string) (final : string) : string :=
  match ds with
  | [] => final
  | d :: ds' => "open library " +:+ d +:+ ": " +:+ trail ds' final
  end.

(** The line [Library.String] writes for a file of the listing. *)
Definition entry_line (extensions : list string) (f : DirEntry) : string :=
  if is_media extensions f then Name f +:+ newline
  else "[playlist] " +:+ Name f +:+ newline.

(** A file system with a directory that cannot be read. *)
Definition locked_fs : FS :=
  fs_of [("/lib", [dir "Album"; file "a.mp3"; dir "private"]);
         ("/lib/Album", [file "cover.png"; file "list.m3u"; file "one.mp3"])].

(** A root with one album. *)
Definition album_fs : FS :=
  fs_of [("/lib", [dir "Album"; file "intro.mp3"]);
         ("/lib/Album", [file "cover.png"; file "list.m3u"; file "one.mp3"])].

(** ** The library functions on sample inputs *)

Example Cut_samples :
  strings.Cut "a.tar.gz" "." = ("a", "tar.gz", true) /\
  strings.Cut "radio" "." = ("radio", "", false) /\
  strings.Cut ".hidden" "." = ("", "hidden", true) /\
  strings.Cut "trailing." "." = ("trailing", "", true).
Proof. repeat split; reflexivity. Qed.

Example Join_samples :
  filepath.Join "/music" "a.mp3" = "/music/a.mp3" /\
  filepath.Join "/music/" "a.mp3" = "/music/a.mp3" /\
  filepath.Join "" "a.mp3" = "a.mp3" /\
  filepath.Join "." "a.mp3" = "a.mp3" /\
  filepath.Join "a/../.." "b" = "../b" /\
  filepath.Join "/a/../.." "b" = "/b" /\
  filepath.Join "x//y/./z/.." "" = "x/y" /\
  filepath.Join "/" ".." = "/".
Proof. repeat split; reflexivity. Qed.

Example Base_samples :
  filepath.Base "/music/a.mp3" = "a.mp3" /\
  filepath.Base "/music/Album///" = "Album" /\
  filepath.Base "///" = "/" /\
  filepath.Base "" = "." /\
  filepath.Base "plain" = "plain".
Proof. repeat split; reflexivity. Qed.

(** ** The lookup tables *)

Lemma ext_table_elem (l : list string) (X : gset string) (e : string) :
  e ∈ ext_table X l <-> e ∈ X \/ e ∈ l.
Proof.
  revert X. induction l as [|a l IH]; intros X; simpl.
  - set_solver.
  - rewrite IH. set_solver.
Qed.

Lemma ext_table_list (l : list string) (e : string) :
  e ∈ ext_table ∅ l <-> e ∈ l.
Proof. rewrite ext_table_elem. set_solver. Qed.

Lemma pext_table_inr (ext : gset string) (l : list string) (X pext : gset string) :
  pext_table ext X l = inr pext ->
  Forall (fun e => e ∉ ext) l /\ forall e, e ∈ pext <-> e ∈ X \/ e ∈ l.
Proof.
  revert X. induction l as [|a l IH]; intros X; simpl.
  - intros [= <-]. split; [constructor | set_solver].
  - case_decide as Ha; [discriminate|]. intros H.
    destruct (IH _ H) as [Hall Hmem]. split; [by constructor|].
    intros e. rewrite Hmem. set_solver.
Qed.

Lemma pext_table_inl (ext : gset string) (l : list string) (X : gset string) (e : string) :
  pext_table ext X l = inl e -> e ∈ l /\ e ∈ ext.
Proof.
  revert X. induction l as [|a l IH]; intros X; simpl; [discriminate|].
  case_decide as Ha.
  - intros [= <-]. split; [left | done].
  - intros H. destruct (IH _ H). split; [by right | done].
Qed.

Lemma pext_table_overlap (ext : gset string) (l : list string) (X : gset string) (x : string) :
  x ∈ l -> x ∈ ext -> exists e, pext_table ext X l = inl e.
Proof.
  revert X. induction l as [|a l IH]; intros X Hl Hx; simpl.
  - by apply elem_of_nil in Hl.
  - case_decide; [eauto|].
    apply elem_of_cons in Hl as [->|Hl]; [done|]. by apply IH.
Qed.

Lemma pext_table_disjoint (ext : gset string) (l : list string) (X : gset string) :
  Forall (fun e => e ∉ ext) l -> exists pext, pext_table ext X l = inr pext.
Proof.
  revert X. induction l as [|a l IH]; intros X Hall; simpl; [eauto|].
  inversion Hall; subst. case_decide; [done|]. by apply IH.
Qed.

(** ** The loop over the listing *)

Section Loop.

Variable rec : string -> list string * outcome.
Variables (d : string) (ext pext : gset string).

Lemma loop_nil (lib : Library) :
  NewLibrary_loop rec d ext pext lib [] = ([], Returned lib None).
Proof. reflexivity. Qed.

(** A file: the loop goes on with the library the leaf was added to. *)
Lemma loop_file (lib : Library) (f : DirEntry) (fs : list DirEntry) :
  IsDir f = false ->
  NewLibrary_loop rec d ext pext lib (f :: fs) =
  NewLibrary_loop rec d ext pext
    (match leaf_in d ext pext f with
     | Some e => append_entry lib e
     | None => lib
     end) fs.
Proof.
  intros Hf. cbn [NewLibrary_loop]. unfold leaf_in, entry_path. rewrite Hf.
  unfold loadSingleFile, loadPlaylistFile.
  destruct (bool_decide (extension (Name f) ∈ ext)) eqn:He;
    unfold extension in He; rewrite He; [done|].
  destruct (bool_decide (extension (Name f) ∈ pext)) eqn:Hp;
    unfold extension in Hp; rewrite Hp; done.
Qed.

(** A directory: the outcome of the recursive call decides. *)
Lemma loop_dir (lib : Library) (f : DirEntry) (fs : list DirEntry) :
  IsDir f = true ->
  NewLibrary_loop rec d ext pext lib (f :: fs) =
  match rec (entry_path d f) with
  | (t, OutOfFuel) => (t, OutOfFuel)
  | (t, Returned nest (Some err)) =>
      (t, Returned lib
            (Some (wrapError ("open library " +:+ d +:+ ": " +:+ Error err) err)))
  | (t, Returned nest None) =>
      let '(t', o) := NewLibrary_loop rec d ext pext (append_nested lib nest) fs in
      (t ++ t', o)
  end.
Proof. intros Hf. cbn [NewLibrary_loop]. by rewrite Hf. Qed.

(** A loop that runs to its end has added, in listing order, the leaves
    of the files and the libraries built from the directories. *)
Lemma loop_ok (fs : list DirEntry) :
  forall (lib : Library) (t : list string) (lib' : Library),
    NewLibrary_loop rec d ext pext lib fs = (t, Returned lib' None) ->
    root lib' = root lib /\
    entries lib' = entries lib ++ omap (leaf_in d ext pext) fs /\
    exists ns,
      nested lib' = nested lib ++ ns /\
      Forall2 (fun f c => exists tc, rec (entry_path d f) = (tc, Returned c None))
              (filter (fun f => IsDir f = true) fs) ns.
Proof.
  induction fs as [|f fs IH]; intros lib t lib' H.
  - rewrite loop_nil in H. simplify_eq. rewrite !app_nil_r.
    split; [done|]. split; [done|]. exists []. rewrite app_nil_r. by split.
  - destruct (IsDir f) eqn:Hf.
    + rewrite loop_dir in H by done.
      destruct (rec (entry_path d f)) as [tc [|nest [err|]]] eqn:Hrec; try discriminate.
      destruct (NewLibrary_loop rec d ext pext (append_nested lib nest) fs)
        as [t' o] eqn:Hloop.
      simplify_eq. apply IH in Hloop as (Hroot & Hent & ns & Hns & Hall).
      split; [done|]. split.
      * rewrite Hent. cbn [omap list_omap]. unfold leaf_in at 2. by rewrite Hf.
      * exists (nest :: ns). split.
        -- rewrite Hns. cbn. by rewrite <- app_assoc.
        -- rewrite filter_cons_True by done. constructor; eauto.
    + rewrite loop_file in H by done.
      apply IH in H as (Hroot & Hent & ns & Hns & Hall).
      assert (leaf_in d ext pext f = None \/ exists e, leaf_in d ext pext f = Some e)
        as [Hl | [e Hl]] by (destruct (leaf_in d ext pext f); eauto).
      * rewrite Hl in *. split; [done|]. split.
        -- rewrite Hent. cbn [omap list_omap]. by rewrite Hl.
        -- exists ns. split; [done|]. rewrite filter_cons_False; [done|congruence].
      * rewrite Hl in *. cbn in Hroot, Hent, Hns. split; [done|]. split.
        -- rewrite Hent. cbn [omap list_omap]. rewrite Hl. by rewrite <- app_assoc.
        -- exists ns. split; [done|]. rewrite filter_cons_False; [done|congruence].
Qed.

(** The loop over a listing cut in two. *)
Lemma loop_app (fs1 fs2 : list DirEntry) :
  forall lib : Library,
    NewLibrary_loop rec d ext pext lib (fs1 ++ fs2) =
    match NewLibrary_loop rec d ext pext lib fs1 with
    | (t1, Returned lib1 None) =>
        let '(t2, o) := NewLibrary_loop rec d ext pext lib1 fs2 in (t1 ++ t2, o)
    | r => r
    end.
Proof.
  induction fs1 as [|f fs1 IH]; intros lib.
  - rewrite loop_nil. cbn. by destruct (NewLibrary_loop rec d ext pext lib fs2).
  - cbn [app]. destruct (IsDir f) eqn:Hf.
    + rewrite !loop_dir by done.
      destruct (rec (entry_path d f)) as [tc [|nest [err|]]]; try done.
      rewrite IH.
      destruct (NewLibrary_loop rec d ext pext (append_nested lib nest) fs1)
        as [t1 [|lib1 [e1|]]]; try done.
      destruct (NewLibrary_loop rec d ext pext lib1 fs2) as [t2 o].
      by rewrite app_assoc.
    + rewrite !loop_file by done. apply IH.
Qed.

(** A loop that returns an error stopped at a directory whose build
    failed; the library it returns is the one the loop had built from
    the entries before that directory. *)
Lemma loop_err (fs : list DirEntry) :
  forall (lib : Library) (t : list string) (lib' : Library) (e : error),
    NewLibrary_loop rec d ext pext lib fs = (t, Returned lib' (Some e)) ->
    exists fs1 f fs2 t1 tc nest e',
      fs = fs1 ++ f :: fs2 /\ IsDir f = true /\
      NewLibrary_loop rec d ext pext lib fs1 = (t1, Returned lib' None) /\
      rec (entry_path d f) = (tc, Returned nest (Some e')) /\
      e = wrapError ("open library " +:+ d +:+ ": " +:+ Error e') e' /\
      t = t1 ++ tc.
Proof.
  induction fs as [|f fs IH]; intros lib t lib' e H.
  - rewrite loop_nil in H. discriminate.
  - destruct (IsDir f) eqn:Hf.
    + rewrite loop_dir in H by done.
      destruct (rec (entry_path d f)) as [tc [|nest [err|]]] eqn:Hrec; try discriminate.
      * simplify_eq. exists [], f, fs, [], t, nest, err. by rewrite loop_nil.
      * destruct (NewLibrary_loop rec d ext pext (append_nested lib nest) fs)
          as [t' o] eqn:Hloop.
        simplify_eq.
        apply IH in Hloop as (fs1 & g & fs2 & t1 & tg & ng & e' & -> & Hg & Hl & Hr & -> & ->).
        exists (f :: fs1), g, fs2, (tc ++ t1), tg, ng, e'.
        rewrite loop_dir, Hrec, Hl by done. by rewrite app_assoc.
    + rewrite loop_file in H by done.
      apply IH in H as (fs1 & g & fs2 & t1 & tg & ng & e' & -> & Hg & Hl & Hr & -> & ->).
      exists (f :: fs1), g, fs2, t1, tg, ng, e'.
      by rewrite loop_file, Hl.
Qed.

End Loop.

(** ** [Library.Files] *)

Lemma Files_loop_omap (es : list Playable) (f : list string) :
  Files_loop f es = f ++ omap media_path es.
Proof.
  revert f. induction es as [|e es IH]; intros f; cbn [Files_loop].
  - by rewrite app_nil_r.
  - destruct e; cbn [omap list_omap media_path]; rewrite IH; [|done..].
    by rewrite <- app_assoc.
Qed.

Lemma Library_Files_omap (l : Library) :
  Library_Files l = omap media_path (entries l).
Proof. unfold Library_Files. by rewrite Files_loop_omap. Qed.

Lemma media_path_leaf (d : string) (extensions playlistExtensions : list string)
    (fs : list DirEntry) :
  omap media_path (omap (leaf d extensions playlistExtensions) fs) =
  entry_path d <$> filter (fun f => is_media extensions f = true) fs.
Proof.
  induction fs as [|f fs IH]; [done|].
  cbn [omap list_omap]. unfold leaf at 1.
  destruct (is_media extensions f) eqn:Hm.
  - rewrite filter_cons_True by done. cbn. by rewrite <- IH.
  - rewrite filter_cons_False by congruence.
    destruct (is_playlist extensions playlistExtensions f); cbn; by rewrite <- IH.
Qed.

(** With the tables built from the two lists, the table lookups of the
    loop are membership in the lists. *)
Lemma leaf_in_leaf (d : string) (extensions playlistExtensions : list string)
    (pext : gset string) (f : DirEntry) :
  pext_table (ext_table ∅ extensions) ∅ playlistExtensions = inr pext ->
  leaf_in d (ext_table ∅ extensions) pext f = leaf d extensions playlistExtensions f.
Proof.
  intros Hp. apply pext_table_inr in Hp as [_ Hmem].
  unfold leaf_in, leaf, is_media, is_playlist.
  destruct (IsDir f); [done|]. cbn [negb andb].
  rewrite (bool_decide_ext _ _ (ext_table_list extensions (extension (Name f)))).
  destruct (bool_decide (extension (Name f) ∈ extensions)); [done|]. cbn [negb andb].
  assert (extension (Name f) ∈ pext <-> extension (Name f) ∈ playlistExtensions) as Hiff.
  { rewrite Hmem. set_solver. }
  by rewrite (bool_decide_ext _ _ Hiff).
Qed.

(** ** The constructor *)

Section Constructor.

Variable ReadDir : FS.
Variable Quote : string -> string.

Abbreviation NewLibrary := (NewLibrary ReadDir Quote).

(** The body of the constructor, one level of recursion unfolded. *)
Lemma NewLibrary_unfold (fuel : nat) (d : string)
    (extensions playlistExtensions : list string) :
  NewLibrary (S fuel) d extensions playlistExtensions =
  if decide (length extensions = 0) then
    ([], Returned (mkLibrary [] [] d)
           (Some (wrapError
                    ("open library " +:+ d +:+ ": " +:+ Error ErrExtensionSet)
                    ErrExtensionSet)))
  else
    match pext_table (ext_table ∅ extensions) ∅ playlistExtensions with
    | inl e =>
        ([], Returned (mkLibrary [] [] d)
               (Some (wrapError
                        ("open library " +:+ d +:+ ": playlist extension "
                           +:+ Quote e +:+ ": " +:+ Error ErrExtensionsOverlap)
                        ErrExtensionsOverlap)))
    | inr pext =>
        match ReadDir d with
        | inr err =>
            ([d], Returned (mkLibrary [] [] d)
                    (Some (wrapError
                             ("open library " +:+ d +:+ ": " +:+ Error (osError err))
                             (osError err))))
        | inl fs =>
            if decide (length fs = 0) then
              ([d], Returned (mkLibrary [] [] d)
                      (Some (errorString
                               ("open library " +:+ d +:+ ": "
                                  +:+ Error ErrEmptyLibrary))))
            else
              let '(t, o) :=
                NewLibrary_loop
                  (fun path => NewLibrary fuel path extensions playlistExtensions)
                  d (ext_table ∅ extensions) pext (mkLibrary [] [] d) fs in
              (d :: t, o)
        end
    end.
Proof. reflexivity. Qed.

(** What a successful call went through. *)
Lemma NewLibrary_ok (fuel : nat) (d : string)
    (extensions playlistExtensions : list string) (t : list string) (lib : Library) :
  NewLibrary fuel d extensions playlistExtensions = (t, Returned lib None) ->
  exists fuel' pext fs t',
    fuel = S fuel' /\ extensions <> [] /\
    pext_table (ext_table ∅ extensions) ∅ playlistExtensions = inr pext /\
    ReadDir d = inl fs /\ fs <> [] /\ t = d :: t' /\
    NewLibrary_loop (fun p => NewLibrary fuel' p extensions playlistExtensions)
      d (ext_table ∅ extensions) pext (mkLibrary [] [] d) fs
    = (t', Returned lib None).
Proof.
  destruct fuel as [|fuel']; [discriminate|]. rewrite NewLibrary_unfold.
  case_decide as Hlen; [discriminate|].
  destruct (pext_table _ _ _) as [e|pext] eqn:Hp; [discriminate|].
  destruct (ReadDir d) as [fs|err] eqn:Hrd; [|discriminate].
  case_decide as Hfs; [discriminate|].
  destruct (NewLibrary_loop _ _ _ _ _ _) as [t' o] eqn:Hloop.
  intros [= <- ->]. exists fuel', pext, fs, t'.
  repeat split; try done.
  - by intros ->.
  - by intros ->.
Qed.

(** The shape of a successfully built node, in terms of the listing of
    its directory. *)
Lemma NewLibrary_shape (fuel : nat) (d : string)
    (extensions playlistExtensions : list string) (t : list string) (lib : Library) :
  NewLibrary fuel d extensions playlistExtensions = (t, Returned lib None) ->
  exists fuel' fs,
    fuel = S fuel' /\ ReadDir d = inl fs /\ fs <> [] /\
    root lib = d /\
    entries lib = omap (leaf d extensions playlistExtensions) fs /\
    Forall2 (fun f c => exists tc,
                 NewLibrary fuel' (entry_path d f) extensions playlistExtensions
                 = (tc, Returned c None))
            (filter (fun f => IsDir f = true) fs) (nested lib).
Proof.
  intros H.
  apply NewLibrary_ok in H as (fuel' & pext & fs & t' & -> & Hne & Hp & Hrd & Hfs & -> & Hloop).
  apply loop_ok in Hloop as (Hroot & Hent & ns & Hns & Hall).
  exists fuel', fs. repeat split; try done.
  - rewrite Hent. cbn. clear -Hp. induction fs as [|f fs IH]; [done|].
    cbn [omap list_omap]. by rewrite (leaf_in_leaf _ _ _ _ _ Hp), IH.
  - by rewrite Hns.
Qed.

(** More fuel does not change the result of a call that returned. *)
Lemma loop_more_fuel (rec1 rec2 : string -> list string * outcome)
    (d : string) (ext pext : gset string) (fs : list DirEntry) :
  (forall p t l e, rec1 p = (t, Returned l e) -> rec2 p = (t, Returned l e)) ->
  forall lib t l e,
    NewLibrary_loop rec1 d ext pext lib fs = (t, Returned l e) ->
    NewLibrary_loop rec2 d ext pext lib fs = (t, Returned l e).
Proof.
  intros Hrec. induction fs as [|f fs IH]; intros lib t l e H; [done|].
  destruct (IsDir f) eqn:Hf.
  - rewrite loop_dir in * by done.
    destruct (rec1 (entry_path d f)) as [tc [|nest [err|]]] eqn:H1; try discriminate.
    + rewrite (Hrec _ _ _ _ H1). done.
    + rewrite (Hrec _ _ _ _ H1).
      destruct (NewLibrary_loop rec1 _ _ _ _ fs) as [t' o] eqn:Hl.
      simplify_eq. by rewrite (IH _ _ _ _ Hl).
  - rewrite loop_file in * by done. by apply IH.
Qed.

Lemma NewLibrary_S (fuel : nat) :
  forall d extensions playlistExtensions t l e,
    NewLibrary fuel d extensions playlistExtensions = (t, Returned l e) ->
    NewLibrary (S fuel) d extensions playlistExtensions = (t, Returned l e).
Proof.
  induction fuel as [|fuel IH]; intros d extensions playlistExtensions t l e H;
    [discriminate|].
  rewrite NewLibrary_unfold in H. rewrite NewLibrary_unfold.
  set (rec2 := fun path => NewLibrary (S fuel) path extensions playlistExtensions).
  assert (forall p t l e,
             NewLibrary fuel p extensions playlistExtensions = (t, Returned l e) ->
             rec2 p = (t, Returned l e)) as Hrec by (intros; by apply IH).
  clearbody rec2.
  case_decide; [done|].
  destruct (pext_table _ _ _) as [x|pext]; [done|].
  destruct (ReadDir d) as [fs|err]; [|done].
  case_decide; [done|].
  destruct (NewLibrary_loop _ _ _ _ _ _) as [t' o] eqn:Hloop in H.
  simplify_eq.
  by rewrite (loop_more_fuel _ rec2 _ _ _ _ Hrec _ _ _ _ Hloop).
Qed.

Lemma NewLibrary_more_fuel (fuel fuel' : nat) (d : string)
    (extensions playlistExtensions : list string) t l e :
  fuel <= fuel' ->
  NewLibrary fuel d extensions playlistExtensions = (t, Returned l e) ->
  NewLibrary fuel' d extensions playlistExtensions = (t, Returned l e).
Proof. induction 1 as [|m Hle IH]; [done|]. intros Hr. by apply NewLibrary_S, IH. Qed.

End Constructor.

(** ** Properties of the constructor used throughout *)

Section Properties.

Variable ReadDir : FS.
Variable Quote : string -> string.

Abbreviation NewLibrary := (NewLibrary ReadDir Quote).

(** The message of the [EmptyLibrary] failure for directory [x]. *)
Abbreviation empty_msg x := ("open library " +:+ x +:+ ": " +:+ Error ErrEmptyLibrary).

(** Reading a directory without entries ends the loop at once, with the
    error of the call that read it. *)
Lemma loop_reads_empty (rec : string -> list string * outcome)
    (d : string) (ext pext : gset string) (x : string) :
  (forall p t o, rec p = (t, o) -> x ∈ t ->
     exists l e, o = Returned l (Some e) /\
                 cause e = errorString (empty_msg x) /\ last t = Some x) ->
  forall fs lib t o,
    NewLibrary_loop rec d ext pext lib fs = (t, o) -> x ∈ t ->
    exists l e, o = Returned l (Some e) /\
                cause e = errorString (empty_msg x) /\ last t = Some x.
Proof.
  intros Hrec. induction fs as [|f fs IH]; intros lib t o H Hx.
  - rewrite loop_nil in H. simplify_eq. by apply elem_of_nil in Hx.
  - destruct (IsDir f) eqn:Hf.
    + rewrite loop_dir in H by done.
      destruct (rec (entry_path d f)) as [tc oc] eqn:Hc.
      destruct (decide (x ∈ tc)) as [Hin|Hnin].
      * destruct (Hrec _ _ _ Hc Hin) as (l & e & -> & Hcause & Hlast).
        simplify_eq. eauto.
      * destruct oc as [|nest [err|]]; simplify_eq; [done..|].
        destruct (NewLibrary_loop rec d ext pext (append_nested lib nest) fs)
          as [t' o'] eqn:Hloop.
        simplify_eq. apply elem_of_app in Hx as [Hx|Hx]; [done|].
        destruct (IH _ _ _ Hloop Hx) as (l & e & -> & Hcause & Hlast).
        exists l, e. repeat split; [done|].
        rewrite last_app, Hlast. done.
    + rewrite loop_file in H by done. eauto.
Qed.

Lemma reads_empty (fuel : nat) :
  forall d extensions playlistExtensions t o x,
    NewLibrary fuel d extensions playlistExtensions = (t, o) ->
    x ∈ t -> ReadDir x = inl [] ->
    exists l e, o = Returned l (Some e) /\
                cause e = errorString (empty_msg x) /\ last t = Some x.
Proof.
  induction fuel as [|fuel IH]; intros d extensions playlistExtensions t o x H Hx Hempty.
  - cbn in H. simplify_eq. by apply elem_of_nil in Hx.
  - rewrite NewLibrary_unfold in H.
    case_decide; [simplify_eq; by apply elem_of_nil in Hx|].
    destruct (pext_table _ _ _) as [e|pext]; [simplify_eq; by apply elem_of_nil in Hx|].
    destruct (ReadDir d) as [fs|err] eqn:Hrd.
    + case_decide as Hlen.
      * simplify_eq. apply list_elem_of_singleton in Hx as ->. eauto.
      * destruct (NewLibrary_loop _ _ _ _ _ _) as [t' o'] eqn:Hloop.
        simplify_eq. apply elem_of_cons in Hx as [->|Hx].
        { rewrite Hempty in Hrd. by simplify_eq. }
        eapply loop_reads_empty in Hloop as (l & e & -> & Hcause & Hlast); [|by eauto|done].
        exists l, e. repeat split; [done|].
        rewrite last_cons, Hlast. done.
    + simplify_eq. apply list_elem_of_singleton in Hx as ->.
      rewrite Hempty in Hrd. discriminate.
Qed.

(** No error the constructor returns has [ErrEmptyLibrary] in its
    [Unwrap] chain. *)
Lemma never_Is_ErrEmptyLibrary (fuel : nat) :
  forall d extensions playlistExtensions t lib e,
    NewLibrary fuel d extensions playlistExtensions = (t, Returned lib (Some e)) ->
    errors_Is e ErrEmptyLibrary = false.
Proof.
  induction fuel as [|fuel IH]; intros d extensions playlistExtensions t lib e H;
    [discriminate|].
  rewrite NewLibrary_unfold in H.
  case_decide; [by simplify_eq|].
  destruct (pext_table _ _ _) as [x|pext]; [by simplify_eq|].
  destruct (ReadDir d) as [fs|err]; [|by simplify_eq].
  case_decide; [by simplify_eq|].
  destruct (NewLibrary_loop _ _ _ _ _ _) as [t' o'] eqn:Hloop.
  simplify_eq.
  apply loop_err in Hloop as (fs1 & f & fs2 & t1 & tc & nest & e' & _ & _ & _ & Hrec & -> & _).
  cbn. eauto.
Qed.

(** A directory of files only: the constructor returns after one read,
    whatever the fuel. *)
Lemma NewLibrary_flat (fuel : nat) (d : string)
    (extensions playlistExtensions : list string) (fs : list DirEntry) :
  extensions <> [] ->
  Forall (fun e => e ∉ extensions) playlistExtensions ->
  ReadDir d = inl fs -> fs <> [] ->
  Forall (fun f => IsDir f = false) fs ->
  NewLibrary (S fuel) d extensions playlistExtensions =
  ([d], Returned (mkLibrary (omap (leaf d extensions playlistExtensions) fs) [] d) None).
Proof.
  intros Hne Hdis Hrd Hfs Hfiles. rewrite NewLibrary_unfold.
  case_decide as Hlen; [by destruct extensions|].
  destruct (pext_table_disjoint (ext_table ∅ extensions) playlistExtensions ∅)
    as [pext Hp].
  { eapply Forall_impl; [exact Hdis|]. intros e He. by rewrite ext_table_list. }
  rewrite Hp, Hrd. case_decide as Hlen'; [by destruct fs|].
  assert (forall lib,
    NewLibrary_loop (fun path => NewLibrary fuel path extensions playlistExtensions)
      d (ext_table ∅ extensions) pext lib fs
    = ([], Returned (mkLibrary (entries lib ++ omap (leaf d extensions playlistExtensions) fs)
                               (nested lib) (root lib)) None)) as ->; [|done].
  clear Hrd Hfs Hlen'. induction Hfiles as [|f fs Hf Hall IH]; intros lib.
  - rewrite loop_nil. cbn. rewrite app_nil_r. by destruct lib.
  - rewrite loop_file by done. rewrite (leaf_in_leaf _ _ _ _ _ Hp), IH.
    cbn [omap list_omap]. destruct (leaf d extensions playlistExtensions f); [|done].
    cbn. by rewrite <- app_assoc.
Qed.

(** Every node of a successfully built tree is the result of a
    successful call of the constructor on its own root. *)
Lemma node_constructed (extensions playlistExtensions : list string)
    (lib n : Library) :
  node_of lib n ->
  forall fuel d t,
    NewLibrary fuel d extensions playlistExtensions = (t, Returned lib None) ->
    exists fuel' t',
      NewLibrary fuel' (root n) extensions playlistExtensions = (t', Returned n None).
Proof.
  induction 1 as [l | l c n Hc Hn IH]; intros fuel d t H.
  - apply NewLibrary_shape in H as Hs.
    destruct Hs as (fuel' & fs & -> & _ & _ & <- & _). eauto.
  - apply NewLibrary_shape in H as (fuel' & fs & -> & _ & _ & _ & _ & Hall).
    apply list_elem_of_lookup in Hc as [i Hi].
    destruct (Forall2_lookup_r _ _ _ _ _ Hall Hi) as (f & _ & tc & Hrec).
    eauto.
Qed.

(** On a tree at most [depth] deep the constructor returns with fuel
    [depth] (and so with any larger fuel). *)
Lemma NewLibrary_returns (extensions playlistExtensions : list string) :
  forall depth d,
    shallow ReadDir depth d = true ->
    exists t lib e,
      NewLibrary depth d extensions playlistExtensions = (t, Returned lib e).
Proof.
  induction depth as [|depth IH]; intros d Hs; [discriminate|].
  cbn [shallow] in Hs. rewrite NewLibrary_unfold.
  case_decide; [eauto|].
  destruct (pext_table _ _ _) as [x|pext]; [eauto|].
  destruct (ReadDir d) as [fs|err]; [|eauto].
  case_decide; [eauto|].
  assert (forall lib,
    exists t lib' e,
      NewLibrary_loop (fun path => NewLibrary depth path extensions playlistExtensions)
        d (ext_table ∅ extensions) pext lib fs = (t, Returned lib' e)) as Hloop.
  { clear -IH Hs. induction fs as [|f fs IHfs]; intros lib.
    - rewrite loop_nil. eauto.
    - cbn [forallb] in Hs. apply andb_true_iff in Hs as [Hf Hs].
      destruct (IsDir f) eqn:Hdir.
      + rewrite loop_dir by done.
        destruct (IH _ Hf) as (tc & c & [e|] & ->); [eauto|].
        destruct (IHfs Hs (append_nested lib c)) as (t' & lib' & e' & ->). eauto.
      + rewrite loop_file by done. by apply IHfs. }
  destruct (Hloop (mkLibrary [] [] d)) as (t & lib' & e & ->). eauto.
Qed.

(** A barren directory builds, and the node has no entries. *)
Lemma barren_builds (extensions playlistExtensions : list string) :
  extensions <> [] ->
  Forall (fun e => e ∉ extensions) playlistExtensions ->
  forall depth d,
    barren ReadDir extensions playlistExtensions depth d = true ->
    exists t lib,
      NewLibrary depth d extensions playlistExtensions = (t, Returned lib None) /\
      entries lib = [].
Proof.
  intros Hne Hdis. induction depth as [|depth IH]; intros d Hb; [discriminate|].
  cbn [barren] in Hb. destruct (ReadDir d) as [fs|err] eqn:Hrd; [|discriminate].
  apply andb_true_iff in Hb as [Hfs Hall].
  apply negb_true_iff, bool_decide_eq_false in Hfs.
  rewrite NewLibrary_unfold.
  case_decide as Hlen; [by destruct extensions|].
  destruct (pext_table_disjoint (ext_table ∅ extensions) playlistExtensions ∅)
    as [pext Hp].
  { eapply Forall_impl; [exact Hdis|]. intros e He. by rewrite ext_table_list. }
  rewrite Hp, Hrd. case_decide as Hlen'; [by destruct fs|].
  assert (forall lib,
    exists t lib',
      NewLibrary_loop (fun path => NewLibrary depth path extensions playlistExtensions)
        d (ext_table ∅ extensions) pext lib fs = (t, Returned lib' None) /\
      entries lib' = entries lib) as Hloop.
  { clear Hrd Hfs Hlen'. induction fs as [|f fs IHfs]; intros lib.
    - rewrite loop_nil. eauto.
    - cbn [forallb] in Hall. apply andb_true_iff in Hall as [Hf Hall].
      destruct (IsDir f) eqn:Hdir.
      + rewrite loop_dir by done.
        destruct (IH _ Hf) as (tc & c & -> & _).
        destruct (IHfs Hall (append_nested lib c)) as (t' & lib' & -> & Hent).
        eauto.
      + rewrite loop_file by done. rewrite (leaf_in_leaf _ _ _ _ _ Hp).
        apply andb_true_iff in Hf as [Hm Hpl].
        apply negb_true_iff in Hm, Hpl.
        unfold leaf, is_media, is_playlist. rewrite Hdir, Hm, Hpl. cbn.
        by apply IHfs. }
  destruct (Hloop (mkLibrary [] [] d)) as (t & lib' & -> & Hent). eauto.
Qed.

End Properties.

(** ** [strings.Cut] on a name, and [filepath.Join] on a rooted path *)

Lemma append_cons (c : ascii) (s t : string) :
  String c s +:+ t = String c (s +:+ t).
Proof. reflexivity. Qed.

Lemma substring_all (s : string) : String.substring 0 (String.length s) s = s.
Proof. induction s as [|c s IH]; [done|]. cbn. by rewrite IH. Qed.

Lemma substring_skip (b s : string) (m : nat) :
  String.substring (String.length b + 1) m (b +:+ "." +:+ s) = String.substring 0 m s.
Proof. induction b as [|c b IH]; [done|]. rewrite append_cons. cbn. apply IH. Qed.

Lemma substring_before (b s : string) :
  String.substring 0 (String.length b) (b +:+ s) = b.
Proof.
  induction b as [|c b IH]; [by destruct s|]. rewrite append_cons. cbn. by rewrite IH.
Qed.

Lemma length_dot_append (b a : string) :
  String.length (b +:+ "." +:+ a) = String.length b + 1 + String.length a.
Proof. induction b as [|c b IH]; [done|]. rewrite append_cons. cbn. by rewrite IH. Qed.

Lemma Index_dot_cons (c : ascii) (s : string) :
  strings.Index (String c s) "." =
  if decide (c = "."%char) then Some 0 else S <$> strings.Index s ".".
Proof.
  change (strings.Index (String c s) ".")
    with (if String.prefix "." (String c s) then Some 0 else S <$> strings.Index s ".").
  change (String.prefix "." (String c s))
    with (if ascii_dec "." c then String.prefix "" s else false).
  destruct (ascii_dec "." c) as [<-|Hc].
  - rewrite decide_True by done. by destruct s.
  - rewrite decide_False by congruence. done.
Qed.

(** The first [.] of [before ++ "." ++ after] is the one written, when
    [before] has none. *)
Lemma Index_first_dot (before after : string) :
  strings.Index before "." = None ->
  strings.Index (before +:+ "." +:+ after) "." = Some (String.length before).
Proof.
  induction before as [|c b IH].
  - intros _. change ("" +:+ "." +:+ after) with (String "." after).
    rewrite Index_dot_cons. by rewrite decide_True.
  - rewrite append_cons, !Index_dot_cons. case_decide; [done|].
    intros Hb. destruct (strings.Index b ".") eqn:Hi; [discriminate|].
    by rewrite IH.
Qed.

Lemma Cut_first_dot (before after : string) :
  strings.Index before "." = None ->
  strings.Cut (before +:+ "." +:+ after) "." = (before, after, true).
Proof.
  intros Hb. unfold strings.Cut. rewrite (Index_first_dot _ _ Hb).
  rewrite substring_before, substring_skip, length_dot_append.
  cbn [String.length].
  replace (String.length before + 1 + String.length after - (String.length before + 1))
    with (String.length after) by lia.
  by rewrite substring_all.
Qed.

Lemma Cut_no_dot (name : string) :
  strings.Index name "." = None -> strings.Cut name "." = (name, "", false).
Proof. intros H. unfold strings.Cut. by rewrite H. Qed.

Lemma rooted_Join (d name : string) :
  filepath.IsAbs d = true -> filepath.IsAbs (filepath.Join d name) = true.
Proof.
  unfold filepath.IsAbs, filepath.Join, filepath.Clean. intros Hd.
  destruct d as [|c d]; [discriminate|]. rewrite !append_cons.
  rewrite decide_False by done. rewrite decide_False by done.
  cbn [filepath.rooted] in *. rewrite Hd.
  by destruct (foldl _ _ _).
Qed.

Section Absolute.

Variable ReadDir : FS.
Variable Quote : string -> string.

(** Built from an absolute root, a tree holds absolute paths only: the
    root of every node, and every path of every entry. *)
Lemma absolute_root_absolute_paths (extensions playlistExtensions : list string)
    (lib n : Library) :
  node_of lib n ->
  forall fuel d t,
    NewLibrary ReadDir Quote fuel d extensions playlistExtensions
    = (t, Returned lib None) ->
    filepath.IsAbs d = true ->
    filepath.IsAbs (root n) = true /\
    Forall (fun e => Forall (fun p => filepath.IsAbs p = true) (Files e)) (entries n).
Proof.
  induction 1 as [l | l c n Hc Hn IH]; intros fuel d t H Habs.
  - apply NewLibrary_shape in H as (fuel' & fs & -> & _ & _ & -> & -> & _).
    split; [done|]. apply Forall_forall. intros e He.
    apply list_elem_of_omap in He as (f & _ & Hleaf). unfold leaf in Hleaf.
    repeat case_match; simplify_eq; cbn;
      repeat constructor; by apply rooted_Join.
  - apply NewLibrary_shape in H as (fuel' & fs & -> & _ & _ & _ & _ & Hall).
    apply list_elem_of_lookup in Hc as [i Hi].
    destruct (Forall2_lookup_r _ _ _ _ _ Hall Hi) as (f & _ & tc & Hrec).
    eapply IH; [exact Hrec|]. by apply rooted_Join.
Qed.

End Absolute.

(** ** The statements of the specification *)

Lemma NoDup_fmap_elem_inj {A B : Type} (h : A -> B) (l : list A) (x y : A) :
  NoDup (h <$> l) -> x ∈ l -> y ∈ l -> h x = h y -> x = y.
Proof.
  induction l as [|a l IH]; intros Hnd Hx Hy Hxy; [by apply elem_of_nil in Hx|].
  rewrite fmap_cons in Hnd. apply NoDup_cons in Hnd as [Ha Hnd].
  apply elem_of_cons in Hx as [->|Hx]; apply elem_of_cons in Hy as [->|Hy]; auto.
  - exfalso. apply Ha. rewrite Hxy. by apply list_elem_of_fmap_2.
  - exfalso. apply Ha. rewrite <- Hxy. by apply list_elem_of_fmap_2.
Qed.

(** Directories of the listing give no leaf. *)
Lemma leaf_files_only (d : string) (extensions playlistExtensions : list string)
    (fs : list DirEntry) :
  omap (leaf d extensions playlistExtensions) fs
  = omap (leaf d extensions playlistExtensions) (filter (fun f => IsDir f = false) fs).
Proof.
  induction fs as [|f fs IH]; [done|].
  cbn [omap list_omap]. destruct (IsDir f) eqn:Hf.
  - rewrite filter_cons_False by congruence.
    assert (leaf d extensions playlistExtensions f = None) as ->
        by (unfold leaf, is_media, is_playlist; by rewrite Hf).
    exact IH.
  - rewrite filter_cons_True by done. cbn [omap list_omap]. by rewrite IH.
Qed.

(** A leaf is a media file or a playlist file, never a library. *)
Lemma leaf_not_library (d : string) (extensions playlistExtensions : list string)
    (f : DirEntry) (e : Playable) :
  leaf d extensions playlistExtensions f = Some e ->
  IsDir f = false /\ match e with PLibrary _ => False | _ => True end.
Proof.
  unfold leaf, is_media, is_playlist. destruct (IsDir f); [done|].
  intros H. split; [done|]. repeat case_match; by simplify_eq.
Qed.

Lemma fs_of_single (d : string) (l : list DirEntry) : fs_of [(d, l)] d = inl l.
Proof. unfold fs_of. cbn. by rewrite decide_True. Qed.

(** C1.  For a successfully constructed node, [Files()] is exactly the list
    of the paths of the media-file entries, in entry order: it is the list
    of the paths the constructor gave to the media files of the directory
    listing, in listing order; the nested libraries contribute nothing to
    it; and, the entries of the listing having distinct paths, the path of
    no playlist (of no entry other than a media file) is in it.  For a
    directory listing [a.mp3], [b.m3u], [c.png], built with media
    extensions [mp3] and playlist extensions [m3u], the constructor
    returns a node with one media entry and one playlist entry, nothing
    for [c.png], and [Files()] is the one path of [a.mp3] under the root,
    which for the root [/music] is [/music/a.mp3]. *)
Theorem Files_direct_media :
  (forall (ReadDir : FS) (Quote : string -> string) (fuel : nat) (d : string)
          (extensions playlistExtensions : list string) (t : list string)
          (lib : Library) (fs : list DirEntry),
      NewLibrary ReadDir Quote fuel d extensions playlistExtensions
      = (t, Returned lib None) ->
      ReadDir d = inl fs ->
      Library_Files lib = omap media_path (entries lib) /\
      Library_Files lib
      = entry_path d <$> filter (fun f => is_media extensions f = true) fs /\
      (forall ns, Library_Files (mkLibrary (entries lib) ns (root lib))
                  = Library_Files lib) /\
      (NoDup (entry_path d <$> fs) ->
       forall f, f ∈ fs -> is_media extensions f = false ->
                 entry_path d f ∉ Library_Files lib)) /\
  (forall (Quote : string -> string) (fuel : nat) (d : string),
      exists m p,
        NewLibrary (fs_of [(d, [file "a.mp3"; file "b.m3u"; file "c.png"])])
          Quote (S fuel) d ["mp3"] ["m3u"]
        = ([d], Returned (mkLibrary [PMediaFile m; PPlaylistFile p] [] d) None) /\
        mediaFile_path m = filepath.Join d "a.mp3" /\
        playlistFile_paths p = [filepath.Join d "b.m3u"] /\
        Library_Files (mkLibrary [PMediaFile m; PPlaylistFile p] [] d)
        = [filepath.Join d "a.mp3"]) /\
  filepath.Join "/music" "a.mp3" = "/music/a.mp3".
Proof.
  split; [|split; [|reflexivity]].
  - intros ReadDir Quote fuel d extensions playlistExtensions t lib fs H Hrd.
    apply NewLibrary_shape in H as (fuel' & fs' & -> & Hrd' & _ & Hroot & Hent & _).
    rewrite Hrd in Hrd'. simplify_eq.
    assert (Library_Files lib
            = entry_path (root lib) <$> filter (fun f => is_media extensions f = true) fs')
      as Hfiles by (by rewrite Library_Files_omap, Hent, media_path_leaf).
    split; [apply Library_Files_omap|]. split; [done|]. split; [done|].
    intros Hnd f Hf Hm Hin. rewrite Hfiles in Hin.
    apply list_elem_of_fmap in Hin as (g & Hfg & Hg).
    apply list_elem_of_filter in Hg as [Hgm Hg].
    assert (f = g) as -> by (by eapply NoDup_fmap_elem_inj).
    congruence.
  - intros Quote fuel d. eexists _, _.
    rewrite (NewLibrary_flat _ Quote fuel d ["mp3"] ["m3u"]
               [file "a.mp3"; file "b.m3u"; file "c.png"] ltac:(done));
      [| | apply fs_of_single | done |].
    + cbn [omap list_omap]. unfold leaf.
      assert (is_media ["mp3"] (file "a.mp3") = true) as -> by (vm_compute; reflexivity).
      assert (is_media ["mp3"] (file "b.m3u") = false) as -> by (vm_compute; reflexivity).
      assert (is_playlist ["mp3"] ["m3u"] (file "b.m3u") = true) as ->
          by (vm_compute; reflexivity).
      assert (is_media ["mp3"] (file "c.png") = false) as -> by (vm_compute; reflexivity).
      assert (is_playlist ["mp3"] ["m3u"] (file "c.png") = false) as ->
          by (vm_compute; reflexivity).
      cbn [option_bind mbind]. split; [reflexivity|]. done.
    + repeat constructor. set_solver.
    + by repeat constructor.
Qed.

(** At [/music]: the listing has distinct paths, and the path of the
    playlist [b.m3u] is not among the files of the node. *)
Lemma Files_direct_media_witness :
  entry_path "/music" (file "b.m3u")
  ∉ Library_Files
      (mkLibrary
         [PMediaFile (mkMediaFile "/music/a.mp3" "a.mp3");
          PPlaylistFile (mkPlaylistFile ["/music/b.m3u"] "b.m3u")] [] "/music").
Proof.
  refine (proj2 (proj2 (proj2
    (proj1 Files_direct_media music_fs quote_plain 1 "/music" ["mp3"] ["m3u"]
       ["/music"] _ [file "a.mp3"; file "b.m3u"; file "c.png"] _ _))) _ _ _ _).
  - vm_compute. reflexivity.
  - vm_compute. reflexivity.
  - vm_compute. repeat constructor; set_solver.
  - set_solver.
  - vm_compute. reflexivity.
Defined.

(** C2.  A directory without entries that the construction reads, be it
    the root or one reached in the recursion, makes the construction
    return an error whose innermost error is the [EmptyLibrary] failure
    of that directory; it is the last directory read (the build stops
    there and the error travels up through every enclosing call).  With
    valid extension sets the root is read, so a root without entries
    fails that way for every fuel. *)
Theorem empty_directory_fails :
  (forall (ReadDir : FS) (Quote : string -> string) (fuel : nat) (d : string)
          (extensions playlistExtensions : list string) (t : list string)
          (o : outcome) (x : string),
      NewLibrary ReadDir Quote fuel d extensions playlistExtensions = (t, o) ->
      x ∈ t -> ReadDir x = inl [] ->
      exists lib e,
        o = Returned lib (Some e) /\ is_EmptyLibrary e /\
        cause e = errorString ("open library " +:+ x +:+ ": " +:+ Error ErrEmptyLibrary) /\
        last t = Some x) /\
  (forall (ReadDir : FS) (Quote : string -> string) (fuel : nat) (d : string)
          (extensions playlistExtensions : list string),
      extensions <> [] ->
      Forall (fun e => e ∉ extensions) playlistExtensions ->
      ReadDir d = inl [] ->
      NewLibrary ReadDir Quote (S fuel) d extensions playlistExtensions
      = ([d], Returned (mkLibrary [] [] d)
                (Some (errorString
                         ("open library " +:+ d +:+ ": " +:+ Error ErrEmptyLibrary))))).
Proof.
  split.
  - intros ReadDir Quote fuel d extensions playlistExtensions t o x H Hx Hempty.
    destruct (reads_empty _ _ _ _ _ _ _ _ _ H Hx Hempty) as (lib & e & -> & Hc & Hl).
    exists lib, e. repeat split; try done. by exists x.
  - intros ReadDir Quote fuel d extensions playlistExtensions Hne Hdis Hrd.
    rewrite NewLibrary_unfold.
    case_decide as Hlen; [by destruct extensions|].
    destruct (pext_table_disjoint (ext_table ∅ extensions) playlistExtensions ∅)
      as [pext Hp].
    { eapply Forall_impl; [exact Hdis|]. intros e He. by rewrite ext_table_list. }
    by rewrite Hp, Hrd.
Qed.

(** In [hollow_fs] the directory [/lib/sub/empty] is read two levels below
    the root [/lib], and the build of [/lib] fails with its error. *)
Lemma empty_directory_fails_witness :
  exists lib e,
    NewLibrary hollow_fs quote_plain 3 "/lib" ["mp3"] ["m3u"]
    = (["/lib"; "/lib/sub"; "/lib/sub/empty"], Returned lib (Some e)) /\
    is_EmptyLibrary e.
Proof.
  destruct (proj1 empty_directory_fails hollow_fs quote_plain 3 "/lib" ["mp3"] ["m3u"]
              ["/lib"; "/lib/sub"; "/lib/sub/empty"]
              (NewLibrary hollow_fs quote_plain 3 "/lib" ["mp3"] ["m3u"]).2
              "/lib/sub/empty")
    as (lib & e & Ho & He & _).
  - vm_compute. reflexivity.
  - set_solver.
  - vm_compute. reflexivity.
  - exists lib, e. split; [|exact He]. rewrite <- Ho. vm_compute. reflexivity.
Defined.

(** C3, as the specification states it, fails.  In [hollow_fs] the nested
    library [/lib/sub] has one child, the directory [/lib/sub/empty], which
    has no entries: all its children are further-nested empty directories,
    yet its construction returns the [EmptyLibrary] failure, and no amount
    of fuel makes it succeed. *)
Lemma nested_empty_directory_rejected :
  hollow_fs "/lib/sub" = inl [dir "empty"] /\
  hollow_fs (entry_path "/lib/sub" (dir "empty")) = inl [] /\
  (exists e,
      NewLibrary hollow_fs quote_plain 2 "/lib/sub" ["mp3"] ["m3u"]
      = (["/lib/sub"; "/lib/sub/empty"], Returned (mkLibrary [] [] "/lib/sub") (Some e)) /\
      is_EmptyLibrary e) /\
  ~ (exists fuel t lib,
        NewLibrary hollow_fs quote_plain fuel "/lib/sub" ["mp3"] ["m3u"]
        = (t, Returned lib None)).
Proof.
  split; [vm_compute; reflexivity|]. split; [vm_compute; reflexivity|]. split.
  - eexists. split; [vm_compute; reflexivity|]. by exists "/lib/sub/empty".
  - intros (fuel & t & lib & H).
    destruct (decide (fuel <= 2)) as [Hle|Hgt].
    + apply (NewLibrary_more_fuel _ _ _ 2) in H; [|done]. vm_compute in H. discriminate.
    + assert (NewLibrary hollow_fs quote_plain 2 "/lib/sub" ["mp3"] ["m3u"]
              = (["/lib/sub"; "/lib/sub/empty"],
                 Returned (mkLibrary [] [] "/lib/sub")
                   (Some (wrapError
                            ("open library /lib/sub: " +:+
                             "open library /lib/sub/empty: library is empty")
                            (errorString "open library /lib/sub/empty: library is empty")))))
        as H2 by (vm_compute; reflexivity).
      apply (NewLibrary_more_fuel _ _ _ fuel) in H2; [|lia].
      rewrite H2 in H. discriminate.
Qed.

(** C3, amended.  The construction of a nested library succeeds, with no
    entries, when the directory lists at least one child and every child
    is a file with an unrecognised extension or a subdirectory that is,
    in turn, of this kind ([barren]); and it does not succeed when a child
    is a directory without entries. *)
Theorem barren_directory_accepted :
  forall (ReadDir : FS) (Quote : string -> string)
         (extensions playlistExtensions : list string) (d : string),
    extensions <> [] ->
    Forall (fun e => e ∉ extensions) playlistExtensions ->
    (forall depth,
        barren ReadDir extensions playlistExtensions depth d = true ->
        exists t lib,
          NewLibrary ReadDir Quote depth d extensions playlistExtensions
          = (t, Returned lib None) /\
          entries lib = [] /\ Library_Files lib = []) /\
    (forall fs f,
        ReadDir d = inl fs -> f ∈ fs -> IsDir f = true ->
        ReadDir (entry_path d f) = inl [] ->
        forall fuel t lib,
          NewLibrary ReadDir Quote fuel d extensions playlistExtensions
          <> (t, Returned lib None)).
Proof.
  intros ReadDir Quote extensions playlistExtensions d Hne Hdis. split.
  - intros depth Hb.
    destruct (barren_builds ReadDir Quote _ _ Hne Hdis _ _ Hb) as (t & lib & H & Hent).
    exists t, lib. repeat split; try done. by rewrite Library_Files_omap, Hent.
  - intros fs f Hrd Hf Hdir Hempty fuel t lib H.
    apply NewLibrary_shape in H as (fuel' & fs' & -> & Hrd' & _ & _ & _ & Hall).
    rewrite Hrd in Hrd'. simplify_eq.
    assert (f ∈ filter (fun f => IsDir f = true) fs') as Hin
        by (by apply list_elem_of_filter).
    apply list_elem_of_lookup in Hin as [i Hi].
    destruct (Forall2_lookup_l _ _ _ _ _ Hall Hi) as (c & _ & tc & Hc).
    apply NewLibrary_ok in Hc as (_ & _ & fs'' & _ & _ & _ & _ & Hrd'' & Hne'' & _).
    rewrite Hempty in Hrd''. by simplify_eq.
Qed.

(** In [barren_fs], [/lib/Album] holds a picture and a directory of notes:
    it builds, with no entries and one nested library. *)
Lemma barren_directory_accepted_witness :
  exists t lib,
    NewLibrary barren_fs quote_plain 2 "/lib/Album" ["mp3"] ["m3u"]
    = (t, Returned lib None) /\
    entries lib = [] /\ Library_Files lib = [].
Proof.
  refine (proj1 (barren_directory_accepted barren_fs quote_plain ["mp3"] ["m3u"]
                   "/lib/Album" _ _) 2 _).
  - done.
  - repeat constructor. set_solver.
  - vm_compute. reflexivity.
Defined.

(** C4 fails on the code.  The playlist [b.m3u] of [music_fs] gets the
    title [b.m3u], the base name of its path with the extension, where the
    filename without its extension is [b]. *)
Theorem playlist_title_keeps_extension :
  exists m p,
    NewLibrary music_fs quote_plain 1 "/music" ["mp3"] ["m3u"]
    = (["/music"], Returned (mkLibrary [PMediaFile m; PPlaylistFile p] [] "/music") None) /\
    Files (PPlaylistFile p) = ["/music/b.m3u"] /\
    Title (PPlaylistFile p) = "b.m3u" /\
    (strings.Cut "b.m3u" ".").1.1 = "b" /\
    Title (PPlaylistFile p) <> (strings.Cut "b.m3u" ".").1.1.
Proof.
  eexists _, _. split; [vm_compute; reflexivity|].
  repeat split; try (vm_compute; reflexivity). vm_compute. discriminate.
Qed.

(** C5.  The extension a name is classified by is the text after its first
    [.], and the empty string when it has none; the entries of a
    successfully built node are the leaves this classification gives to the
    non-directory entries of the listing; a file whose name has no [.] is
    a media file when the empty string is among the media extensions, and
    its path is in [Files()].  A directory holding the one file [radio],
    with [""] among the media extensions, builds into a node whose one
    entry is that media file and whose [Files()] is its path. *)
Theorem extension_after_first_dot :
  (forall name, strings.Index name "." = None -> extension name = "") /\
  (forall before after,
      strings.Index before "." = None ->
      extension (before +:+ "." +:+ after) = after) /\
  (forall (ReadDir : FS) (Quote : string -> string) (fuel : nat) (d : string)
          (extensions playlistExtensions : list string) (t : list string)
          (lib : Library) (fs : list DirEntry),
      NewLibrary ReadDir Quote fuel d extensions playlistExtensions
      = (t, Returned lib None) ->
      ReadDir d = inl fs ->
      entries lib
      = omap (leaf d extensions playlistExtensions)
             (filter (fun f => IsDir f = false) fs) /\
      (forall f,
          f ∈ fs -> IsDir f = false ->
          strings.Index (Name f) "." = None -> "" ∈ extensions ->
          is_media extensions f = true /\
          PMediaFile (mkMediaFile (entry_path d f) (filepath.Base (entry_path d f)))
            ∈ entries lib /\
          entry_path d f ∈ Library_Files lib)) /\
  (forall (Quote : string -> string) (fuel : nat) (d : string)
          (extensions playlistExtensions : list string),
      "" ∈ extensions ->
      Forall (fun e => e ∉ extensions) playlistExtensions ->
      exists m,
        NewLibrary (fs_of [(d, [file "radio"])]) Quote (S fuel) d
          extensions playlistExtensions
        = ([d], Returned (mkLibrary [PMediaFile m] [] d) None) /\
        mediaFile_path m = filepath.Join d "radio" /\
        Library_Files (mkLibrary [PMediaFile m] [] d) = [filepath.Join d "radio"]).
Proof.
  split; [|split; [|split]].
  - intros name H. unfold extension. by rewrite Cut_no_dot.
  - intros before after H. unfold extension. by rewrite Cut_first_dot.
  - intros ReadDir Quote fuel d extensions playlistExtensions t lib fs H Hrd.
    apply NewLibrary_shape in H as (fuel' & fs' & -> & Hrd' & _ & Hroot & Hent & _).
    rewrite Hrd in Hrd'. simplify_eq.
    split.
    + rewrite Hent. apply leaf_files_only.
    + intros f Hf Hfile Hdot Hblank.
      assert (is_media extensions f = true) as Hm.
      { unfold is_media, extension. rewrite Hfile, Cut_no_dot by done.
        by apply bool_decide_eq_true_2. }
      split; [done|]. split.
      * rewrite Hent. apply list_elem_of_omap. exists f. split; [done|].
        unfold leaf. by rewrite Hm.
      * rewrite Library_Files_omap, Hent, media_path_leaf.
        apply list_elem_of_fmap_2. by apply list_elem_of_filter.
  - intros Quote fuel d extensions playlistExtensions Hblank Hdis. eexists.
    rewrite (NewLibrary_flat _ Quote fuel d extensions playlistExtensions [file "radio"]);
      [| | done | apply fs_of_single | done | by repeat constructor ].
    + cbn [omap list_omap]. unfold leaf.
      assert (is_media extensions (file "radio") = true) as ->.
      { unfold is_media. cbn [IsDir file negb andb].
        by apply bool_decide_eq_true_2. }
      cbn. done.
    + intros ->. by apply elem_of_nil in Hblank.
Qed.

(** At [radio_fs] with media extensions [mp3] and [""]: the path of
    [radio] is in [Files()]. *)
Lemma extension_after_first_dot_witness :
  "/srv/radio"
  ∈ Library_Files (mkLibrary [PMediaFile (mkMediaFile "/srv/radio" "radio")] [] "/srv").
Proof.
  destruct (proj1 (proj2 (proj2 extension_after_first_dot))
              radio_fs quote_plain 1 "/srv" ["mp3"; ""] ["m3u"] ["/srv"]
              (mkLibrary [PMediaFile (mkMediaFile "/srv/radio" "radio")] [] "/srv")
              [file "radio"])
    as [_ H].
  - vm_compute. reflexivity.
  - vm_compute. reflexivity.
  - destruct (H (file "radio")) as (_ & _ & Hin).
    + set_solver.
    + reflexivity.
    + vm_compute. reflexivity.
    + set_solver.
    + exact Hin.
Defined.

(** C6.  When a playlist extension is also a media extension, the
    constructor returns, for every root and every file system, an error
    that wraps [ErrExtensionsOverlap], together with the library that has
    only its root set; it reads no directory. *)
Theorem overlap_rejected :
  forall (ReadDir : FS) (Quote : string -> string) (fuel : nat) (d : string)
         (extensions playlistExtensions : list string) (x : string),
    x ∈ extensions -> x ∈ playlistExtensions ->
    exists e msg,
      e ∈ extensions /\ e ∈ playlistExtensions /\
      NewLibrary ReadDir Quote (S fuel) d extensions playlistExtensions
      = ([], Returned (mkLibrary [] [] d) (Some (wrapError msg ErrExtensionsOverlap))) /\
      msg = "open library " +:+ d +:+ ": playlist extension " +:+ Quote e +:+ ": "
              +:+ Error ErrExtensionsOverlap /\
      is_ExtensionsOverlap (wrapError msg ErrExtensionsOverlap) /\
      errors_Is (wrapError msg ErrExtensionsOverlap) ErrExtensionsOverlap = true.
Proof.
  intros ReadDir Quote fuel d extensions playlistExtensions x Hx Hp.
  destruct (pext_table_overlap (ext_table ∅ extensions) playlistExtensions ∅ x)
    as [e He]; [done|by apply ext_table_list|].
  destruct (pext_table_inl _ _ _ _ He) as [Hel Hee]. apply ext_table_list in Hee.
  eexists e, _. split; [done|]. split; [done|].
  rewrite NewLibrary_unfold.
  case_decide as Hlen; [destruct extensions; [by apply elem_of_nil in Hx|done]|].
  rewrite He. done.
Qed.

(** With [ogg] in both lists, on a root that does not even exist. *)
Lemma overlap_rejected_witness :
  exists msg,
    NewLibrary radio_fs quote_plain 1 "/nowhere" ["mp3"; "ogg"] ["m3u"; "ogg"]
    = ([], Returned (mkLibrary [] [] "/nowhere")
             (Some (wrapError msg ErrExtensionsOverlap))).
Proof.
  destruct (overlap_rejected radio_fs quote_plain 0 "/nowhere"
              ["mp3"; "ogg"] ["m3u"; "ogg"] "ogg")
    as (e & msg & _ & _ & H & _).
  - set_solver.
  - set_solver.
  - exists msg. exact H.
Defined.

(** C7 fails on the code.  The constructor joins names to the root it was
    given and never makes the root absolute: built from the relative root
    [music], the node's [Files()], the path of its media file and the path
    of its playlist are all relative. *)
Theorem relative_root_relative_paths :
  exists m p,
    NewLibrary relative_fs quote_plain 1 "music" ["mp3"] ["m3u"]
    = (["music"], Returned (mkLibrary [PMediaFile m; PPlaylistFile p] [] "music") None) /\
    Library_Files (mkLibrary [PMediaFile m; PPlaylistFile p] [] "music") = ["music/a.mp3"] /\
    Files (PMediaFile m) = ["music/a.mp3"] /\
    Files (PPlaylistFile p) = ["music/b.m3u"] /\
    filepath.IsAbs "music/a.mp3" = false /\
    filepath.IsAbs "music/b.m3u" = false.
Proof. eexists _, _. repeat split; vm_compute; reflexivity. Qed.

(** C8.  Every node of a successfully built tree holds, in [entries], the
    leaves of the non-directory entries of its directory's listing, in
    listing order, each a media file or a playlist file and none a
    library; and, in [nested], the libraries built from the directories
    of the listing, one for each and in listing order, each rooted at the
    path of its directory. *)
Theorem entries_files_nested_directories :
  forall (ReadDir : FS) (Quote : string -> string) (fuel : nat) (d : string)
         (extensions playlistExtensions : list string) (t : list string)
         (lib n : Library),
    NewLibrary ReadDir Quote fuel d extensions playlistExtensions
    = (t, Returned lib None) ->
    node_of lib n ->
    exists fuel' fs,
      ReadDir (root n) = inl fs /\
      entries n
      = omap (leaf (root n) extensions playlistExtensions)
             (filter (fun f => IsDir f = false) fs) /\
      Forall (fun e => match e with PLibrary _ => False | _ => True end) (entries n) /\
      Forall2 (fun f c =>
                 root c = entry_path (root n) f /\
                 exists tc,
                   NewLibrary ReadDir Quote fuel' (entry_path (root n) f)
                     extensions playlistExtensions
                   = (tc, Returned c None))
              (filter (fun f => IsDir f = true) fs) (nested n) /\
      root <$> nested n
      = entry_path (root n) <$> filter (fun f => IsDir f = true) fs.
Proof.
  intros ReadDir Quote fuel d extensions playlistExtensions t lib n H Hn.
  destruct (node_constructed _ _ _ _ _ _ Hn _ _ _ H) as (fuel1 & t1 & H1).
  apply NewLibrary_shape in H1 as (fuel' & fs & -> & Hrd & _ & _ & Hent & Hall).
  assert (Forall2 (fun f c =>
                 root c = entry_path (root n) f /\
                 exists tc,
                   NewLibrary ReadDir Quote fuel' (entry_path (root n) f)
                     extensions playlistExtensions
                   = (tc, Returned c None))
              (filter (fun f => IsDir f = true) fs) (nested n)) as Hall'.
  { eapply Forall2_impl; [exact Hall|]. intros f c (tc & Hc). split; [|eauto].
    by apply NewLibrary_shape in Hc as (? & ? & _ & _ & _ & -> & _). }
  exists fuel', fs. split; [done|]. split; [by rewrite Hent, <- leaf_files_only|].
  split; [|split; [done|]].
  - rewrite Hent. apply Forall_forall. intros e He.
    apply list_elem_of_omap in He as (f & _ & Hleaf).
    by apply leaf_not_library in Hleaf as [_ ?].
  - clear -Hall'. induction Hall' as [|f c fs' ns [Hc _] _ IH]; [done|].
    cbn. by rewrite Hc, IH.
Qed.

(** The nested node [/lib/Album] of the tree built from [/lib] in
    [barren_fs]. *)
Lemma entries_files_nested_directories_witness :
  exists fuel' fs,
    barren_fs "/lib/Album" = inl fs /\
    Forall2 (fun f c =>
               root c = entry_path "/lib/Album" f /\
               exists tc,
                 NewLibrary barren_fs quote_plain fuel' (entry_path "/lib/Album" f)
                   ["mp3"] ["m3u"]
                 = (tc, Returned c None))
            (filter (fun f => IsDir f = true) fs)
            [mkLibrary [] [] "/lib/Album/notes"].
Proof.
  destruct (entries_files_nested_directories barren_fs quote_plain 3 "/lib"
              ["mp3"] ["m3u"] ["/lib"; "/lib/Album"; "/lib/Album/notes"]
              (mkLibrary []
                 [mkLibrary [] [mkLibrary [] [] "/lib/Album/notes"] "/lib/Album"] "/lib")
              (mkLibrary [] [mkLibrary [] [] "/lib/Album/notes"] "/lib/Album"))
    as (fuel' & fs & Hrd & _ & _ & Hall & _).
  - vm_compute. reflexivity.
  - eapply node_below; [|apply node_here]. cbn. set_solver.
  - exists fuel', fs. split; [exact Hrd | exact Hall].
Defined.

(** C9.  When the construction has read a non-empty listing and returns an
    error, it stopped at a directory [f] of the listing whose recursive
    build failed, and the library it returns with the error is not the
    empty one: it keeps the root, the leaves of the entries listed before
    [f] and the libraries built from the directories listed before [f]. *)
Theorem failed_build_keeps_prefix :
  forall (ReadDir : FS) (Quote : string -> string) (fuel : nat) (d : string)
         (extensions playlistExtensions : list string) (t : list string)
         (lib : Library) (e : error) (fs : list DirEntry),
    NewLibrary ReadDir Quote fuel d extensions playlistExtensions
    = (t, Returned lib (Some e)) ->
    extensions <> [] ->
    Forall (fun x => x ∉ extensions) playlistExtensions ->
    ReadDir d = inl fs -> fs <> [] ->
    exists fuel' fs1 f fs2 tc nest e',
      fs = fs1 ++ f :: fs2 /\ IsDir f = true /\
      NewLibrary ReadDir Quote fuel' (entry_path d f) extensions playlistExtensions
      = (tc, Returned nest (Some e')) /\
      e = wrapError ("open library " +:+ d +:+ ": " +:+ Error e') e' /\
      root lib = d /\
      entries lib = omap (leaf d extensions playlistExtensions) fs1 /\
      Forall2 (fun g c => exists tg,
                   NewLibrary ReadDir Quote fuel' (entry_path d g)
                     extensions playlistExtensions
                   = (tg, Returned c None))
              (filter (fun g => IsDir g = true) fs1) (nested lib).
Proof.
  intros ReadDir Quote fuel d extensions playlistExtensions t lib e fs H Hne Hdis Hrd Hfs.
  destruct fuel as [|fuel']; [discriminate|]. rewrite NewLibrary_unfold in H.
  case_decide as Hlen; [by destruct extensions|].
  destruct (pext_table_disjoint (ext_table ∅ extensions) playlistExtensions ∅)
    as [pext Hp].
  { eapply Forall_impl; [exact Hdis|]. intros x Hx. by rewrite ext_table_list. }
  rewrite Hp, Hrd in H. case_decide as Hlen'; [by destruct fs|].
  destruct (NewLibrary_loop _ _ _ _ _ _) as [t' o'] eqn:Hloop. simplify_eq.
  apply loop_err in Hloop
    as (fs1 & f & fs2 & t1 & tc & nest & e' & -> & Hf & Hl & Hrec & -> & _).
  apply loop_ok in Hl as (Hroot & Hent & ns & Hns & Hall).
  exists fuel', fs1, f, fs2, tc, nest, e'. repeat split; try done.
  - rewrite Hent. cbn. clear -Hp. induction fs1 as [|g fs1 IH]; [done|].
    cbn [omap list_omap]. by rewrite (leaf_in_leaf _ _ _ _ _ Hp), IH.
  - by rewrite Hns.
Qed.

(** In [partial_fs] the media file [a.mp3] is listed before the directory
    [sub], which has no entries: the library returned with the error
    holds the entry of [a.mp3]. *)
Lemma failed_build_keeps_prefix_witness :
  exists fs1 f fs2 e,
    [file "a.mp3"; dir "sub"; file "z.mp3"] = fs1 ++ f :: fs2 /\ IsDir f = true /\
    NewLibrary partial_fs quote_plain 2 "/p" ["mp3"] ["m3u"]
    = (["/p"; "/p/sub"],
       Returned (mkLibrary [PMediaFile (mkMediaFile "/p/a.mp3" "a.mp3")] [] "/p")
         (Some e)) /\
    [PMediaFile (mkMediaFile "/p/a.mp3" "a.mp3")] = omap (leaf "/p" ["mp3"] ["m3u"]) fs1.
Proof.
  destruct (failed_build_keeps_prefix partial_fs quote_plain 2 "/p" ["mp3"] ["m3u"]
              ["/p"; "/p/sub"]
              (mkLibrary [PMediaFile (mkMediaFile "/p/a.mp3" "a.mp3")] [] "/p")
              (wrapError "open library /p: open library /p/sub: library is empty"
                 (errorString "open library /p/sub: library is empty"))
              [file "a.mp3"; dir "sub"; file "z.mp3"])
    as (fuel' & fs1 & f & fs2 & tc & nest & e' & Hfs & Hf & _ & _ & _ & Hent & _).
  - vm_compute. reflexivity.
  - done.
  - repeat constructor. set_solver.
  - vm_compute. reflexivity.
  - done.
  - eexists fs1, f, fs2, _. split; [exact Hfs|]. split; [exact Hf|].
    split; [vm_compute; reflexivity | exact Hent].
Defined.

(** C10.  The [EmptyLibrary] failure does not wrap its sentinel, the two
    configuration failures do.  With an empty media extension list the
    constructor returns, for every root, file system and fuel, an error
    that unwraps to [ErrExtensionSet] and matches it under [errors.Is];
    with a shared extension it returns an error that unwraps to
    [ErrExtensionsOverlap] and matches it.  With valid lists and a root
    without entries it returns a fresh error that carries the text of
    [ErrEmptyLibrary] in its message, unwraps to nothing and matches no
    sentinel; and no error the constructor ever returns, from the root or
    from a nested directory, matches [ErrEmptyLibrary]. *)
Theorem only_EmptyLibrary_is_not_wrapped :
  (forall (ReadDir : FS) (Quote : string -> string) (fuel : nat) (d : string)
          (playlistExtensions : list string),
      exists e,
        NewLibrary ReadDir Quote (S fuel) d [] playlistExtensions
        = ([], Returned (mkLibrary [] [] d) (Some e)) /\
        e = wrapError ("open library " +:+ d +:+ ": " +:+ Error ErrExtensionSet)
              ErrExtensionSet /\
        Unwrap e = Some (Sentinel ErrExtensionSet) /\
        errors_Is e ErrExtensionSet = true) /\
  (forall (ReadDir : FS) (Quote : string -> string) (fuel : nat) (d : string)
          (extensions playlistExtensions : list string) (x : string),
      x ∈ extensions -> x ∈ playlistExtensions ->
      exists e,
        NewLibrary ReadDir Quote (S fuel) d extensions playlistExtensions
        = ([], Returned (mkLibrary [] [] d) (Some e)) /\
        Unwrap e = Some (Sentinel ErrExtensionsOverlap) /\
        errors_Is e ErrExtensionsOverlap = true) /\
  (forall (ReadDir : FS) (Quote : string -> string) (fuel : nat) (d : string)
          (extensions playlistExtensions : list string),
      extensions <> [] ->
      Forall (fun x => x ∉ extensions) playlistExtensions ->
      ReadDir d = inl [] ->
      exists e,
        NewLibrary ReadDir Quote (S fuel) d extensions playlistExtensions
        = ([d], Returned (mkLibrary [] [] d) (Some e)) /\
        e = errorString ("open library " +:+ d +:+ ": " +:+ Error ErrEmptyLibrary) /\
        Unwrap e = None /\
        is_EmptyLibrary e /\
        forall s, errors_Is e s = false) /\
  (forall (ReadDir : FS) (Quote : string -> string) (fuel : nat) (d : string)
          (extensions playlistExtensions : list string) (t : list string)
          (lib : Library) (e : error),
      NewLibrary ReadDir Quote fuel d extensions playlistExtensions
      = (t, Returned lib (Some e)) ->
      errors_Is e ErrEmptyLibrary = false).
Proof.
  split; [|split; [|split]].
  - intros ReadDir Quote fuel d playlistExtensions. eexists.
    rewrite NewLibrary_unfold. rewrite decide_True by done. by repeat split.
  - intros ReadDir Quote fuel d extensions playlistExtensions x Hx Hpx.
    destruct (pext_table_overlap (ext_table ∅ extensions) playlistExtensions ∅ x)
      as [y Hy]; [done|by apply ext_table_list|].
    eexists. rewrite NewLibrary_unfold.
    case_decide as Hlen; [destruct extensions; [by apply elem_of_nil in Hx|done]|].
    rewrite Hy. by repeat split.
  - intros ReadDir Quote fuel d extensions playlistExtensions Hne Hdis Hrd.
    destruct (pext_table_disjoint (ext_table ∅ extensions) playlistExtensions ∅)
      as [pext Hp].
    { eapply Forall_impl; [exact Hdis|]. intros x Hx. by rewrite ext_table_list. }
    eexists. rewrite NewLibrary_unfold.
    case_decide as Hlen; [by destruct extensions|].
    rewrite Hp, Hrd. rewrite decide_True by done.
    repeat split; try done. by exists d.
  - intros ReadDir Quote fuel d extensions playlistExtensions t lib e H.
    by eapply never_Is_ErrEmptyLibrary.
Qed.

(** With [ogg] in both lists the error unwraps to [ErrExtensionsOverlap];
    at the directory [/p/sub] of [partial_fs], which has no entries, the
    error unwraps to nothing; and the error of the build of [/p], which
    fails in [/p/sub], does not match [ErrEmptyLibrary]. *)
Lemma only_EmptyLibrary_is_not_wrapped_witness :
  (exists e,
      NewLibrary radio_fs quote_plain 1 "/srv" ["mp3"; "ogg"] ["m3u"; "ogg"]
      = ([], Returned (mkLibrary [] [] "/srv") (Some e)) /\
      Unwrap e = Some (Sentinel ErrExtensionsOverlap) /\
      errors_Is e ErrExtensionsOverlap = true) /\
  (exists e,
      NewLibrary partial_fs quote_plain 1 "/p/sub" ["mp3"] ["m3u"]
      = (["/p/sub"], Returned (mkLibrary [] [] "/p/sub") (Some e)) /\
      Unwrap e = None) /\
  errors_Is
    (wrapError "open library /p: open library /p/sub: library is empty"
       (errorString "open library /p/sub: library is empty"))
    ErrEmptyLibrary = false.
Proof.
  split; [|split].
  - refine (proj1 (proj2 only_EmptyLibrary_is_not_wrapped)
              radio_fs quote_plain 0 "/srv" ["mp3"; "ogg"] ["m3u"; "ogg"] "ogg" _ _);
      set_solver.
  - destruct (proj1 (proj2 (proj2 only_EmptyLibrary_is_not_wrapped))
                partial_fs quote_plain 0 "/p/sub" ["mp3"] ["m3u"])
      as (e & Hrun & _ & Hunwrap & _).
    + done.
    + repeat constructor. set_solver.
    + vm_compute. reflexivity.
    + exists e. split; [exact Hrun | exact Hunwrap].
  - refine (proj2 (proj2 (proj2 only_EmptyLibrary_is_not_wrapped))
              partial_fs quote_plain 2 "/p" ["mp3"] ["m3u"] ["/p"; "/p/sub"]
              (mkLibrary [PMediaFile (mkMediaFile "/p/a.mp3" "a.mp3")] [] "/p") _ _).
    vm_compute. reflexivity.
Defined.

(** ** Further properties: where and how a construction fails *)

Lemma errors_Is_cause (e : error) (s : sentinel) :
  errors_Is e s = errors_Is (cause e) s.
Proof. induction e; cbn; auto. Qed.

Lemma length_zero_nil {A : Type} (l : list A) : length l = 0 -> l = [].
Proof. by destruct l. Qed.

Section Failure.

Variable ReadDir : FS.
Variable Quote : string -> string.

Abbreviation NewLibrary := (NewLibrary ReadDir Quote).
Abbreviation empty_msg x := ("open library " +:+ x +:+ ": " +:+ Error ErrEmptyLibrary).

(** A read that makes the recursive call return an error with a property
    [P] that wrapping keeps ends the loop with an error that has it. *)
Lemma loop_stops (P : error -> Prop) (rec : string -> list string * outcome)
    (d : string) (ext pext : gset string) (x : string) :
  (forall msg e, P e -> P (wrapError msg e)) ->
  (forall p t o, rec p = (t, o) -> x ∈ t ->
     exists l e, o = Returned l (Some e) /\ P e /\ last t = Some x) ->
  forall fs lib t o,
    NewLibrary_loop rec d ext pext lib fs = (t, o) -> x ∈ t ->
    exists l e, o = Returned l (Some e) /\ P e /\ last t = Some x.
Proof.
  intros Hwrap Hrec. induction fs as [|f fs IH]; intros lib t o H Hx.
  - rewrite loop_nil in H. simplify_eq. by apply elem_of_nil in Hx.
  - destruct (IsDir f) eqn:Hf.
    + rewrite loop_dir in H by done.
      destruct (rec (entry_path d f)) as [tc oc] eqn:Hc.
      destruct (decide (x ∈ tc)) as [Hin|Hnin].
      * destruct (Hrec _ _ _ Hc Hin) as (l & e & -> & HP & Hlast).
        simplify_eq. eauto 10.
      * destruct oc as [|nest [err|]]; simplify_eq; [done..|].
        destruct (NewLibrary_loop rec d ext pext (append_nested lib nest) fs)
          as [t' o'] eqn:Hloop.
        simplify_eq. apply elem_of_app in Hx as [Hx|Hx]; [done|].
        destruct (IH _ _ _ Hloop Hx) as (l & e & -> & HP & Hlast).
        exists l, e. repeat split; [done|].
        rewrite last_app, Hlast. done.
    + rewrite loop_file in H by done. eauto.
Qed.

Lemma reads_unreadable (pe : PathError) (fuel : nat) :
  forall d extensions playlistExtensions t o x,
    NewLibrary fuel d extensions playlistExtensions = (t, o) ->
    x ∈ t -> ReadDir x = inr pe ->
    exists l e,
      o = Returned l (Some e) /\
      (errors_As_PathError e = Some pe /\ cause e = syscallErrno (Err pe)) /\
      last t = Some x.
Proof.
  induction fuel as [|fuel IH]; intros d extensions playlistExtensions t o x H Hx Hbad.
  - cbn in H. simplify_eq. by apply elem_of_nil in Hx.
  - rewrite NewLibrary_unfold in H.
    case_decide; [simplify_eq; by apply elem_of_nil in Hx|].
    destruct (pext_table _ _ _) as [e|pext]; [simplify_eq; by apply elem_of_nil in Hx|].
    destruct (ReadDir d) as [fs|err] eqn:Hrd.
    + case_decide as Hlen.
      * simplify_eq. apply list_elem_of_singleton in Hx as ->.
        rewrite Hbad in Hrd. discriminate.
      * destruct (NewLibrary_loop _ _ _ _ _ _) as [t' o'] eqn:Hloop.
        simplify_eq. apply elem_of_cons in Hx as [->|Hx].
        { rewrite Hbad in Hrd. discriminate. }
        assert (forall p t o,
                   NewLibrary fuel p extensions playlistExtensions = (t, o) -> x ∈ t ->
                   exists l e,
                     o = Returned l (Some e) /\
                     (errors_As_PathError e = Some pe /\
                      cause e = syscallErrno (Err pe)) /\
                     last t = Some x) as Hrec by eauto.
        destruct (loop_stops
                    (fun e => errors_As_PathError e = Some pe /\
                              cause e = syscallErrno (Err pe))
                    _ d (ext_table ∅ extensions) pext x ltac:(done) Hrec
                    _ _ _ _ Hloop Hx)
          as (l & e & -> & HP & Hlast).
        exists l, e. split; [done|]. split; [done|].
        rewrite last_cons, Hlast. done.
    + simplify_eq. apply list_elem_of_singleton in Hx as ->.
      rewrite Hbad in Hrd. simplify_eq. eauto 10.
Qed.

(** With valid extension lists, an error comes from one directory, the
    last one read: it has no entries or cannot be read.  The directories
    from the root down to it are named by the message, in order. *)
Lemma failure_site (fuel : nat) :
  forall d extensions playlistExtensions t lib e,
    extensions <> [] ->
    Forall (fun x => x ∉ extensions) playlistExtensions ->
    NewLibrary fuel d extensions playlistExtensions = (t, Returned lib (Some e)) ->
    exists ds x final,
      descends ReadDir d ds /\ last (d :: ds) = Some x /\ last t = Some x /\
      Error e = trail (d :: ds) final /\
      ((ReadDir x = inl [] /\ final = Error ErrEmptyLibrary /\
        cause e = errorString (empty_msg x)) \/
       (exists pe, ReadDir x = inr pe /\ final = Error (osError pe) /\
                   errors_As_PathError e = Some pe /\
                   cause e = syscallErrno (Err pe))).
Proof.
  induction fuel as [|fuel IH]; intros d extensions playlistExtensions t lib e Hne Hdis H;
    [discriminate|].
  rewrite NewLibrary_unfold in H.
  case_decide as Hlen; [by destruct extensions|].
  destruct (pext_table_disjoint (ext_table ∅ extensions) playlistExtensions ∅)
    as [pext Hp].
  { eapply Forall_impl; [exact Hdis|]. intros x Hx. by rewrite ext_table_list. }
  rewrite Hp in H. destruct (ReadDir d) as [fs|pe] eqn:Hrd.
  - case_decide as Hlen'.
    + simplify_eq. apply length_zero_nil in Hlen' as ->.
      exists [], d, (Error ErrEmptyLibrary). repeat split; try done. by left.
    + destruct (NewLibrary_loop _ _ _ _ _ _) as [t' o'] eqn:Hloop. simplify_eq.
      apply loop_err in Hloop
        as (fs1 & f & fs2 & t1 & tc & nest & e' & -> & Hf & _ & Hrec & -> & ->).
      apply IH in Hrec as (ds & x & final & Hdesc & Hlast & Hlt & Hmsg & Hkind);
        [|done..].
      exists (entry_path d f :: ds), x, final. split; [|split; [|split; [|split]]].
      * split; [|done]. exists (fs1 ++ f :: fs2), f. repeat split; try done.
        apply elem_of_app. right. left.
      * by rewrite last_cons, Hlast.
      * rewrite last_cons, last_app, Hlt. done.
      * cbn [Error trail]. by rewrite Hmsg.
      * cbn [cause]. exact Hkind.
  - simplify_eq. exists [], d, (Error (osError pe)). repeat split; try done.
    right. by exists pe.
Qed.

(** The library that comes back, with or without an error, has the root
    the constructor was given. *)
Lemma returned_root (fuel : nat) (d : string)
    (extensions playlistExtensions : list string) (t : list string)
    (lib : Library) (e : option error) :
  NewLibrary fuel d extensions playlistExtensions = (t, Returned lib e) ->
  root lib = d.
Proof.
  destruct fuel as [|fuel]; [discriminate|]. rewrite NewLibrary_unfold.
  case_decide; [by intros; simplify_eq|].
  destruct (pext_table _ _ _) as [x|pext]; [by intros; simplify_eq|].
  destruct (ReadDir d) as [fs|pe]; [|by intros; simplify_eq].
  case_decide; [by intros; simplify_eq|].
  destruct (NewLibrary_loop _ _ _ _ _ _) as [t' o'] eqn:Hloop.
  intros ?; simplify_eq. destruct e as [e|].
  - apply loop_err in Hloop as (fs1 & f & fs2 & t1 & tc & nest & e' & _ & _ & Hl & _).
    by apply loop_ok in Hl as (Hroot & _).
  - by apply loop_ok in Hloop as (Hroot & _).
Qed.

End Failure.

Lemma descends_reachable (ReadDir : FS) (ds : list string) :
  forall d x, descends ReadDir d ds -> last (d :: ds) = Some x -> reachable ReadDir d x.
Proof.
  induction ds as [|p ds IH]; intros d x Hd Hl.
  - cbn in Hl. simplify_eq. constructor.
  - destruct Hd as [(fs & f & Hrd & Hf & Hdir & ->) Hd].
    rewrite last_cons_cons in Hl. eapply reach_step; eauto.
Qed.

(** X1.  Whatever the constructor returns, with an error or without, the
    library has the root it was given, and its title is the base name of
    that path; the root of every node of a successfully built tree is the
    given root or a directory named, as a directory, by a listing below
    it. *)
Theorem Root_is_the_given_path :
  forall (ReadDir : FS) (Quote : string -> string) (fuel : nat) (d : string)
         (extensions playlistExtensions : list string) (t : list string)
         (lib : Library) (e : option error),
    NewLibrary ReadDir Quote fuel d extensions playlistExtensions
    = (t, Returned lib e) ->
    Library_Root lib = d /\ Library_Title lib = filepath.Base d /\
    (e = None -> forall n, node_of lib n -> reachable ReadDir d (Library_Root n)).
Proof.
  intros ReadDir Quote fuel d extensions playlistExtensions t lib e H.
  pose proof (returned_root _ _ _ _ _ _ _ _ _ H) as Hroot.
  split; [done|]. split; [unfold Library_Title; by rewrite Hroot|].
  intros -> n Hn. revert fuel d t H Hroot.
  induction Hn as [l | l c n Hc Hn IH]; intros fuel d t H Hroot.
  - unfold Library_Root. rewrite Hroot. constructor.
  - apply NewLibrary_shape in H as (fuel' & fs & -> & Hrd & _ & _ & _ & Hall).
    apply list_elem_of_lookup in Hc as [i Hi].
    destruct (Forall2_lookup_r _ _ _ _ _ Hall Hi) as (f & Hfi & tc & Hrec).
    apply list_elem_of_lookup_2 in Hfi. apply list_elem_of_filter in Hfi as [Hdir Hf].
    eapply reach_step; [exact Hrd|exact Hf|exact Hdir|].
    eapply IH; [exact Hrec|]. by eapply returned_root.
Qed.

(** At [/lib] of [locked_fs], where the build fails at [/lib/private]. *)
Lemma Root_is_the_given_path_witness :
  Library_Root
    (mkLibrary [PMediaFile (mkMediaFile "/lib/a.mp3" "a.mp3")]
       [mkLibrary [PPlaylistFile (mkPlaylistFile ["/lib/Album/list.m3u"] "list.m3u");
                   PMediaFile (mkMediaFile "/lib/Album/one.mp3" "one.mp3")]
          [] "/lib/Album"] "/lib") = "/lib".
Proof.
  refine (proj1 (Root_is_the_given_path locked_fs quote_plain 2 "/lib" ["mp3"] ["m3u"]
                   ["/lib"; "/lib/Album"; "/lib/private"] _
                   (Some (wrapError
                            ("open library /lib: open library /lib/private: "
                               +:+ "open /lib/private: no such file or directory")
                            (wrapError
                               ("open library /lib/private: "
                                  +:+ "open /lib/private: no such file or directory")
                               (osError (mkPathError "open" "/lib/private"
                                           "no such file or directory")))))
                   _)).
  vm_compute. reflexivity.
Defined.

(** X2.  A directory that cannot be read, be it the root or one reached in
    the recursion, makes the construction return an error that carries the
    [*fs.PathError] of [os.ReadDir] on its [Unwrap] chain ([errors.As]
    finds it), the chain ending one link further in the [syscall.Errno]
    of that error; the directory is the last one read, and the error
    matches none of the three sentinels.  With valid extension lists the
    root is read, so an unreadable root fails that way for every fuel,
    with the empty library. *)
Theorem unreadable_directory_fails :
  (forall (ReadDir : FS) (Quote : string -> string) (fuel : nat) (d : string)
          (extensions playlistExtensions : list string) (t : list string)
          (o : outcome) (x : string) (pe : PathError),
      NewLibrary ReadDir Quote fuel d extensions playlistExtensions = (t, o) ->
      x ∈ t -> ReadDir x = inr pe ->
      exists lib e,
        o = Returned lib (Some e) /\
        errors_As_PathError e = Some pe /\
        cause e = syscallErrno (Err pe) /\
        last t = Some x /\
        forall s, errors_Is e s = false) /\
  (forall (ReadDir : FS) (Quote : string -> string) (fuel : nat) (d : string)
          (extensions playlistExtensions : list string) (pe : PathError),
      extensions <> [] ->
      Forall (fun e => e ∉ extensions) playlistExtensions ->
      ReadDir d = inr pe ->
      NewLibrary ReadDir Quote (S fuel) d extensions playlistExtensions
      = ([d], Returned (mkLibrary [] [] d)
                (Some (wrapError ("open library " +:+ d +:+ ": " +:+ Error (osError pe))
                         (osError pe)))) /\
      Unwrap (osError pe) = Some (syscallErrno (Err pe)) /\
      Unwrap (syscallErrno (Err pe)) = None).
Proof.
  split.
  - intros ReadDir Quote fuel d extensions playlistExtensions t o x pe H Hx Hbad.
    destruct (reads_unreadable _ _ _ _ _ _ _ _ _ _ H Hx Hbad)
      as (lib & e & -> & [Has Hc] & Hl).
    exists lib, e. repeat split; try done.
    intros s. by rewrite errors_Is_cause, Hc.
  - intros ReadDir Quote fuel d extensions playlistExtensions pe Hne Hdis Hrd.
    split; [|done]. rewrite NewLibrary_unfold.
    case_decide as Hlen; [by destruct extensions|].
    destruct (pext_table_disjoint (ext_table ∅ extensions) playlistExtensions ∅)
      as [pext Hp].
    { eapply Forall_impl; [exact Hdis|]. intros e He. by rewrite ext_table_list. }
    by rewrite Hp, Hrd.
Qed.

(** In [locked_fs] the listing of [/lib] names a directory [private] that
    cannot be opened. *)
Lemma unreadable_directory_fails_witness :
  exists lib e,
    (NewLibrary locked_fs quote_plain 2 "/lib" ["mp3"] ["m3u"]).2
    = Returned lib (Some e) /\
    errors_As_PathError e
    = Some (mkPathError "open" "/lib/private" "no such file or directory") /\
    cause e = syscallErrno "no such file or directory".
Proof.
  destruct (proj1 unreadable_directory_fails locked_fs quote_plain 2 "/lib"
              ["mp3"] ["m3u"] ["/lib"; "/lib/Album"; "/lib/private"]
              (NewLibrary locked_fs quote_plain 2 "/lib" ["mp3"] ["m3u"]).2
              "/lib/private"
              (mkPathError "open" "/lib/private" "no such file or directory"))
    as (lib & e & Ho & Has & Hc & _).
  - vm_compute. reflexivity.
  - set_solver.
  - vm_compute. reflexivity.
  - exists lib, e. split; [exact Ho|]. split; [exact Has | exact Hc].
Defined.

(** X3.  With a non-empty media extension list and no shared extension, an
    error of the constructor comes from exactly one directory, the last
    one it read, which is the root or lies below it: either that
    directory has no entries and the innermost error is its
    [EmptyLibrary] failure, or it cannot be read, the [*fs.PathError] that
    [os.ReadDir] gave is on the [Unwrap] chain of the error and the
    innermost error is the [syscall.Errno] it unwraps to. *)
Theorem failure_comes_from_last_directory :
  forall (ReadDir : FS) (Quote : string -> string) (fuel : nat) (d : string)
         (extensions playlistExtensions : list string) (t : list string)
         (lib : Library) (e : error),
    extensions <> [] ->
    Forall (fun x => x ∉ extensions) playlistExtensions ->
    NewLibrary ReadDir Quote fuel d extensions playlistExtensions
    = (t, Returned lib (Some e)) ->
    exists x,
      last t = Some x /\ reachable ReadDir d x /\
      ((ReadDir x = inl [] /\
        errors_As_PathError e = None /\
        cause e = errorString ("open library " +:+ x +:+ ": " +:+ Error ErrEmptyLibrary)) \/
       (exists pe, ReadDir x = inr pe /\
                   errors_As_PathError e = Some pe /\
                   cause e = syscallErrno (Err pe))).
Proof.
  intros ReadDir Quote fuel d extensions playlistExtensions t lib e Hne Hdis H.
  destruct (failure_site _ _ _ _ _ _ _ _ _ Hne Hdis H)
    as (ds & x & final & Hdesc & Hlast & Hlt & _ & Hkind).
  exists x. split; [done|]. split; [by eapply descends_reachable|].
  destruct Hkind as [(Hrd & _ & Hc) | (pe & Hrd & _ & Has & Hc)]; [left | right; eauto].
  split; [done|]. split; [|done].
  clear -Hc. induction e; cbn in *; try done; auto.
Qed.

Lemma failure_comes_from_last_directory_witness :
  exists x,
    last ["/lib"; "/lib/Album"; "/lib/private"] = Some x /\
    reachable locked_fs "/lib" x /\
    exists pe, locked_fs x = inr pe.
Proof.
  destruct (failure_comes_from_last_directory locked_fs quote_plain 2 "/lib"
              ["mp3"] ["m3u"] ["/lib"; "/lib/Album"; "/lib/private"]
              (mkLibrary [PMediaFile (mkMediaFile "/lib/a.mp3" "a.mp3")]
                 [mkLibrary [PPlaylistFile (mkPlaylistFile ["/lib/Album/list.m3u"] "list.m3u");
                             PMediaFile (mkMediaFile "/lib/Album/one.mp3" "one.mp3")]
                    [] "/lib/Album"] "/lib")
              (wrapError
                 ("open library /lib: open library /lib/private: "
                    +:+ "open /lib/private: no such file or directory")
                 (wrapError
                    ("open library /lib/private: "
                       +:+ "open /lib/private: no such file or directory")
                    (osError (mkPathError "open" "/lib/private"
                                "no such file or directory")))))
    as (x & Hl & Hr & Hkind).
  - done.
  - repeat constructor. set_solver.
  - vm_compute. reflexivity.
  - exists x. split; [exact Hl|]. split; [exact Hr|].
    destruct Hkind as [(Hrd & _ & Hc) | (pe & Hrd & _)]; [|by exists pe].
    vm_compute in Hc. discriminate.
Defined.

(** X4.  With valid extension lists, the message of an error of the
    constructor names the directories from the root down to the one where
    the build failed, each as [open library <dir>: ], parent before
    child, and ends with the text of [ErrEmptyLibrary] or with the
    message of the error of [os.ReadDir]. *)
Theorem error_message_is_a_trail :
  forall (ReadDir : FS) (Quote : string -> string) (fuel : nat) (d : string)
         (extensions playlistExtensions : list string) (t : list string)
         (lib : Library) (e : error),
    extensions <> [] ->
    Forall (fun x => x ∉ extensions) playlistExtensions ->
    NewLibrary ReadDir Quote fuel d extensions playlistExtensions
    = (t, Returned lib (Some e)) ->
    exists ds x final,
      descends ReadDir d ds /\ last (d :: ds) = Some x /\
      Error e = trail (d :: ds) final /\
      ((ReadDir x = inl [] /\ final = "library is empty") \/
       (exists pe, ReadDir x = inr pe /\
                   final = Op pe +:+ " " +:+ Path pe +:+ ": " +:+ Err pe)).
Proof.
  intros ReadDir Quote fuel d extensions playlistExtensions t lib e Hne Hdis H.
  destruct (failure_site _ _ _ _ _ _ _ _ _ Hne Hdis H)
    as (ds & x & final & Hdesc & Hlast & _ & Hmsg & Hkind).
  exists ds, x, final. repeat split; try done.
  destruct Hkind as [(Hrd & -> & _) | (pe & Hrd & -> & _)]; [by left | right; eauto].
Qed.

Lemma error_message_is_a_trail_witness :
  exists ds final,
    "open library /lib: open library /lib/sub: open library /lib/sub/empty: library is empty"
    = trail ("/lib" :: ds) final.
Proof.
  destruct (error_message_is_a_trail hollow_fs quote_plain 3 "/lib"
              ["mp3"] ["m3u"] ["/lib"; "/lib/sub"; "/lib/sub/empty"]
              (mkLibrary [] [] "/lib")
              (wrapError
                 "open library /lib: open library /lib/sub: open library /lib/sub/empty: library is empty"
                 (wrapError
                    "open library /lib/sub: open library /lib/sub/empty: library is empty"
                    (errorString "open library /lib/sub/empty: library is empty"))))
    as (ds & x & final & _ & _ & Hmsg & _).
  - done.
  - repeat constructor. set_solver.
  - vm_compute. reflexivity.
  - exists ds, final. exact Hmsg.
Defined.

(** X5.  Matching a returned error against the sentinels with [errors.Is]
    tells the two configuration failures apart exactly: the error matches
    [ErrExtensionSet] if and only if the media extension list is empty,
    and it matches [ErrExtensionsOverlap] if and only if that list is not
    empty and shares an element with the playlist extension list. *)
Theorem sentinel_match_is_exact :
  forall (ReadDir : FS) (Quote : string -> string) (fuel : nat) (d : string)
         (extensions playlistExtensions : list string) (t : list string)
         (lib : Library) (e : error),
    NewLibrary ReadDir Quote fuel d extensions playlistExtensions
    = (t, Returned lib (Some e)) ->
    (errors_Is e ErrExtensionSet = true <-> extensions = []) /\
    (errors_Is e ErrExtensionsOverlap = true <->
     extensions <> [] /\ exists x, x ∈ extensions /\ x ∈ playlistExtensions).
Proof.
  intros ReadDir Quote fuel d extensions playlistExtensions t lib e H.
  destruct (decide (extensions = [])) as [->|Hne].
  { destruct fuel; [discriminate|]. rewrite NewLibrary_unfold in H.
    rewrite decide_True in H by done. simplify_eq. cbn. split; [done|].
    split; [discriminate|]. by intros [? _]. }
  destruct (decide (Forall (fun x => x ∉ extensions) playlistExtensions)) as [Hdis|Hov].
  - destruct (failure_site _ _ _ _ _ _ _ _ _ Hne Hdis H)
      as (ds & x & final & _ & _ & _ & _ & Hkind).
    assert (forall s, errors_Is e s = false) as Hno.
    { intros s. rewrite errors_Is_cause.
      destruct Hkind as [(_ & _ & ->) | (pe & _ & _ & _ & ->)]; done. }
    rewrite !Hno. split; [split; [discriminate|done]|].
    split; [discriminate|]. intros (_ & y & Hy & Hpy).
    rewrite Forall_forall in Hdis. by destruct (Hdis y Hpy).
  - apply not_Forall_Exists in Hov; [|apply _].
    apply Exists_exists in Hov as (y & Hpy & Hy). apply dec_stable in Hy.
    destruct fuel; [discriminate|]. rewrite NewLibrary_unfold in H.
    case_decide as Hlen; [by destruct extensions|].
    destruct (pext_table_overlap (ext_table ∅ extensions) playlistExtensions ∅ y)
      as [z Hz]; [done|by apply ext_table_list|].
    rewrite Hz in H. simplify_eq. cbn. split; [split; [discriminate|done]|].
    split; [|done]. intros _. split; [done|]. eauto.
Qed.

Lemma sentinel_match_is_exact_witness :
  errors_Is
    (wrapError
       ("open library /srv: empty extension set: "
          +:+ "at least one media extension must be specified") ErrExtensionSet)
    ErrExtensionSet = true <-> @nil string = [].
Proof.
  refine (proj1 (sentinel_match_is_exact radio_fs quote_plain 1 "/srv" [] ["m3u"]
                   [] (mkLibrary [] [] "/srv") _ _)).
  vm_compute. reflexivity.
Defined.

(** ** Further properties: when a construction succeeds, and what it reads *)

Lemma tree_roots_eq (l : Library) :
  tree_roots l = root l :: concat (tree_roots <$> nested l).
Proof.
  destruct l as [es ns r]. cbn [tree_roots root nested]. f_equal.
  induction ns as [|n ns IH]; [done|]. cbn. by rewrite IH.
Qed.

Lemma elem_of_concat_fmap {A B : Type} (h : A -> list B) (l : list A) (x : B) :
  x ∈ concat (h <$> l) <-> exists a, a ∈ l /\ x ∈ h a.
Proof.
  induction l as [|a l IH]; cbn.
  - split; [by intros ?%elem_of_nil | by intros (a & ?%elem_of_nil & _)].
  - rewrite elem_of_app, IH. split.
    + intros [H | (b & Hb & H)]; [exists a; split; [left|done] | exists b; split; [by right|done]].
    + intros (b & Hb & H). apply elem_of_cons in Hb as [->|Hb]; [by left | right; eauto].
Qed.

Lemma node_root_in_tree_roots (l n : Library) :
  node_of l n -> root n ∈ tree_roots l.
Proof.
  induction 1 as [l | l c n Hc Hn IH]; rewrite tree_roots_eq; [left|].
  right. apply elem_of_concat_fmap. eauto.
Qed.

Lemma tree_roots_node (k : nat) :
  forall l x, length (tree_roots l) <= k -> x ∈ tree_roots l ->
              exists n, node_of l n /\ root n = x.
Proof.
  induction k as [|k IH]; intros l x Hk Hx.
  - rewrite tree_roots_eq in Hk. cbn in Hk. lia.
  - rewrite tree_roots_eq in Hx, Hk. apply elem_of_cons in Hx as [->|Hx].
    + exists l. split; [constructor|done].
    + apply elem_of_concat_fmap in Hx as (c & Hc & Hx).
      destruct (IH c x) as (n & Hn & Hroot); [|done|].
      * cbn in Hk. apply list_elem_of_split in Hc as (l1 & l2 & Hc).
        rewrite Hc, fmap_app, concat_app, length_app in Hk. cbn in Hk.
        rewrite length_app in Hk. lia.
      * exists n. split; [by eapply node_below|done].
Qed.

Section Success.

Variable ReadDir : FS.
Variable Quote : string -> string.

Abbreviation NewLibrary := (NewLibrary ReadDir Quote).

Lemma sound_builds (extensions playlistExtensions : list string) :
  extensions <> [] ->
  Forall (fun e => e ∉ extensions) playlistExtensions ->
  forall depth d,
    sound ReadDir depth d = true ->
    exists t lib,
      NewLibrary depth d extensions playlistExtensions = (t, Returned lib None).
Proof.
  intros Hne Hdis. induction depth as [|depth IH]; intros d Hs; [discriminate|].
  cbn [sound] in Hs. destruct (ReadDir d) as [fs|err] eqn:Hrd; [|discriminate].
  apply andb_true_iff in Hs as [Hfs Hall].
  apply negb_true_iff, bool_decide_eq_false in Hfs.
  rewrite NewLibrary_unfold.
  case_decide as Hlen; [by destruct extensions|].
  destruct (pext_table_disjoint (ext_table ∅ extensions) playlistExtensions ∅)
    as [pext Hp].
  { eapply Forall_impl; [exact Hdis|]. intros e He. by rewrite ext_table_list. }
  rewrite Hp, Hrd. case_decide as Hlen'; [by destruct fs|].
  assert (forall lib,
    exists t lib',
      NewLibrary_loop (fun path => NewLibrary depth path extensions playlistExtensions)
        d (ext_table ∅ extensions) pext lib fs = (t, Returned lib' None)) as Hloop.
  { clear Hrd Hfs Hlen'. induction fs as [|f fs IHfs]; intros lib.
    - rewrite loop_nil. eauto.
    - cbn [forallb] in Hall. apply andb_true_iff in Hall as [Hf Hall].
      destruct (IsDir f) eqn:Hdir.
      + rewrite loop_dir by done.
        destruct (IH _ Hf) as (tc & c & ->).
        destruct (IHfs Hall (append_nested lib c)) as (t' & lib' & ->). eauto.
      + rewrite loop_file by done. by apply IHfs. }
  destruct (Hloop (mkLibrary [] [] d)) as (t & lib' & ->). eauto.
Qed.

Lemma built_sound (extensions playlistExtensions : list string) (fuel : nat) :
  forall d t lib,
    NewLibrary fuel d extensions playlistExtensions = (t, Returned lib None) ->
    sound ReadDir fuel d = true.
Proof.
  induction fuel as [|fuel IH]; intros d t lib H; [discriminate|].
  apply NewLibrary_shape in H as (fuel' & fs & [= <-] & Hrd & Hfs & _ & _ & Hall).
  cbn [sound]. rewrite Hrd. apply andb_true_iff. split.
  - by apply negb_true_iff, bool_decide_eq_false.
  - apply forallb_forall. intros f Hf%list_elem_of_In.
    destruct (IsDir f) eqn:Hdir; [|done].
    assert (f ∈ filter (fun f => IsDir f = true) fs) as Hin
        by (by apply list_elem_of_filter).
    apply list_elem_of_lookup in Hin as [i Hi].
    destruct (Forall2_lookup_l _ _ _ _ _ Hall Hi) as (c & _ & tc & Hc). eauto.
Qed.

(** The directories a loop that runs to its end reads are the roots of the
    trees it appends, in order. *)
Lemma loop_reads_roots (rec : string -> list string * outcome)
    (d : string) (ext pext : gset string) :
  (forall p tc c, rec p = (tc, Returned c None) -> tc = tree_roots c) ->
  forall fs lib t lib',
    NewLibrary_loop rec d ext pext lib fs = (t, Returned lib' None) ->
    exists ns, nested lib' = nested lib ++ ns /\ t = concat (tree_roots <$> ns).
Proof.
  intros Hrec. induction fs as [|f fs IH]; intros lib t lib' H.
  - rewrite loop_nil in H. simplify_eq. exists []. by rewrite app_nil_r.
  - destruct (IsDir f) eqn:Hf.
    + rewrite loop_dir in H by done.
      destruct (rec (entry_path d f)) as [tc [|nest [err|]]] eqn:Hc; try discriminate.
      destruct (NewLibrary_loop rec d ext pext (append_nested lib nest) fs)
        as [t' o] eqn:Hloop.
      simplify_eq. apply IH in Hloop as (ns & Hns & ->).
      exists (nest :: ns). split.
      * rewrite Hns. cbn. by rewrite <- app_assoc.
      * cbn. by rewrite (Hrec _ _ _ Hc).
    + rewrite loop_file in H by done. apply IH in H as (ns & Hns & ->).
      exists ns. split; [|done]. rewrite Hns. by destruct (leaf_in d ext pext f).
Qed.

Lemma reads_tree_roots (extensions playlistExtensions : list string) (fuel : nat) :
  forall d t lib,
    NewLibrary fuel d extensions playlistExtensions = (t, Returned lib None) ->
    t = tree_roots lib.
Proof.
  induction fuel as [|fuel IH]; intros d t lib H; [discriminate|].
  pose proof (returned_root _ _ _ _ _ _ _ _ _ H) as Hroot.
  apply NewLibrary_ok in H
    as (fuel' & pext & fs & t' & [= <-] & _ & _ & _ & _ & -> & Hloop).
  eapply loop_reads_roots in Hloop as (ns & Hns & ->); [|by eauto].
  rewrite tree_roots_eq, Hroot. cbn in Hns. by rewrite Hns.
Qed.

(** The loop reads only what the recursive calls read. *)
Lemma loop_reads_within (R : string -> Prop)
    (rec : string -> list string * outcome)
    (d : string) (ext pext : gset string) (fs : list DirEntry) :
  (forall f tc oc x, f ∈ fs -> IsDir f = true ->
                     rec (entry_path d f) = (tc, oc) -> x ∈ tc -> R x) ->
  forall lib t o,
    NewLibrary_loop rec d ext pext lib fs = (t, o) -> forall x, x ∈ t -> R x.
Proof.
  induction fs as [|f fs IH]; intros Hrec lib t o H x Hx.
  - rewrite loop_nil in H. simplify_eq. by apply elem_of_nil in Hx.
  - assert (forall g tc oc x, g ∈ fs -> IsDir g = true ->
                              rec (entry_path d g) = (tc, oc) -> x ∈ tc -> R x) as Hrec'.
    { intros g tc oc y Hg. apply Hrec. by right. }
    destruct (IsDir f) eqn:Hf.
    + rewrite loop_dir in H by done.
      destruct (rec (entry_path d f)) as [tc oc] eqn:Hc.
      assert (forall y, y ∈ tc -> R y) as Htc.
      { intros y. eapply Hrec; [left|done|exact Hc]. }
      destruct oc as [|nest [err|]]; simplify_eq; [by apply Htc..|].
      destruct (NewLibrary_loop rec d ext pext (append_nested lib nest) fs)
        as [t' o'] eqn:Hloop.
      simplify_eq. apply elem_of_app in Hx as [Hx|Hx]; [by apply Htc|].
      eapply IH; eauto.
    + rewrite loop_file in H by done. eapply IH; eauto.
Qed.

Lemma reads_reachable (extensions playlistExtensions : list string) (fuel : nat) :
  forall d t o x,
    NewLibrary fuel d extensions playlistExtensions = (t, o) ->
    x ∈ t -> reachable ReadDir d x.
Proof.
  induction fuel as [|fuel IH]; intros d t o x H Hx.
  - cbn in H. simplify_eq. by apply elem_of_nil in Hx.
  - rewrite NewLibrary_unfold in H.
    case_decide; [simplify_eq; by apply elem_of_nil in Hx|].
    destruct (pext_table _ _ _) as [e|pext]; [simplify_eq; by apply elem_of_nil in Hx|].
    destruct (ReadDir d) as [fs|err] eqn:Hrd.
    + case_decide as Hlen.
      * simplify_eq. apply list_elem_of_singleton in Hx as ->. constructor.
      * destruct (NewLibrary_loop _ _ _ _ _ _) as [t' o'] eqn:Hloop.
        simplify_eq. apply elem_of_cons in Hx as [->|Hx]; [constructor|].
        eapply (loop_reads_within (reachable ReadDir d)); [|exact Hloop|exact Hx].
        intros f tc oc y Hf Hdir Hc Hy.
        eapply reach_step; [exact Hrd|exact Hf|exact Hdir|]. eauto.
    + simplify_eq. apply list_elem_of_singleton in Hx as ->. constructor.
Qed.

End Success.

(** X6.  The construction succeeds exactly when the media extension list
    is not empty, no playlist extension is a media extension, and every
    directory of the tree below the root can be read and lists at least
    one entry (to the depth the fuel allows). *)
Theorem builds_exactly_when_sound :
  forall (ReadDir : FS) (Quote : string -> string) (fuel : nat) (d : string)
         (extensions playlistExtensions : list string),
    (exists t lib,
        NewLibrary ReadDir Quote fuel d extensions playlistExtensions
        = (t, Returned lib None)) <->
    extensions <> [] /\
    Forall (fun e => e ∉ extensions) playlistExtensions /\
    sound ReadDir fuel d = true.
Proof.
  intros ReadDir Quote fuel d extensions playlistExtensions. split.
  - intros (t & lib & H). split; [|split].
    + by apply NewLibrary_ok in H as (_ & _ & _ & _ & _ & Hne & _).
    + apply NewLibrary_ok in H as (_ & pext & _ & _ & _ & _ & Hp & _).
      apply pext_table_inr in Hp as [Hall _].
      eapply Forall_impl; [exact Hall|]. intros e He. by rewrite <- ext_table_list.
    + by eapply built_sound.
  - intros (Hne & Hdis & Hs). by apply sound_builds.
Qed.

(** X7.  A successful construction reads one directory for each node of
    the tree it returns: the list of directories read is the list of the
    roots of the nodes, parents before children and children in listing
    order, starting with the given root. *)
Theorem reads_one_directory_per_node :
  forall (ReadDir : FS) (Quote : string -> string) (fuel : nat) (d : string)
         (extensions playlistExtensions : list string) (t : list string)
         (lib : Library),
    NewLibrary ReadDir Quote fuel d extensions playlistExtensions
    = (t, Returned lib None) ->
    t = tree_roots lib /\ head t = Some d /\
    forall x, x ∈ t <-> exists n, node_of lib n /\ Library_Root n = x.
Proof.
  intros ReadDir Quote fuel d extensions playlistExtensions t lib H.
  pose proof (reads_tree_roots _ _ _ _ _ _ _ _ H) as ->.
  split; [done|]. split.
  - rewrite tree_roots_eq. cbn. f_equal. by eapply returned_root.
  - intros x. split.
    + intros Hx. by eapply tree_roots_node.
    + intros (n & Hn & <-). by apply node_root_in_tree_roots.
Qed.

Lemma reads_one_directory_per_node_witness :
  ["/lib"; "/lib/Album"]
  = tree_roots
      (mkLibrary [PMediaFile (mkMediaFile "/lib/intro.mp3" "intro.mp3")]
         [mkLibrary [PPlaylistFile (mkPlaylistFile ["/lib/Album/list.m3u"] "list.m3u");
                     PMediaFile (mkMediaFile "/lib/Album/one.mp3" "one.mp3")]
            [] "/lib/Album"] "/lib").
Proof.
  refine (proj1 (reads_one_directory_per_node album_fs quote_plain 2 "/lib"
                   ["mp3"] ["m3u"] _ _ _)).
  vm_compute. reflexivity.
Defined.

(** X8.  The constructor reads nothing but the given root and directories
    that a listing it read names as directories; with an empty media
    extension list or a shared extension it reads nothing at all. *)
Theorem reads_only_listed_directories :
  forall (ReadDir : FS) (Quote : string -> string) (fuel : nat) (d : string)
         (extensions playlistExtensions : list string) (t : list string)
         (o : outcome),
    NewLibrary ReadDir Quote fuel d extensions playlistExtensions = (t, o) ->
    (forall x, x ∈ t -> reachable ReadDir d x) /\
    (extensions = [] \/ (exists x, x ∈ extensions /\ x ∈ playlistExtensions) -> t = []).
Proof.
  intros ReadDir Quote fuel d extensions playlistExtensions t o H. split.
  - intros x Hx. by eapply reads_reachable.
  - intros Hbad. destruct fuel; [cbn in H; by simplify_eq|].
    rewrite NewLibrary_unfold in H.
    case_decide as Hlen; [by simplify_eq|].
    destruct Hbad as [->|(x & Hx & Hpx)]; [done|].
    destruct (pext_table_overlap (ext_table ∅ extensions) playlistExtensions ∅ x)
      as [z Hz]; [done|by apply ext_table_list|].
    rewrite Hz in H. by simplify_eq.
Qed.

Lemma reads_only_listed_directories_witness :
  reachable locked_fs "/lib" "/lib/private".
Proof.
  refine (proj1 (reads_only_listed_directories locked_fs quote_plain 2 "/lib"
                   ["mp3"] ["m3u"] ["/lib"; "/lib/Album"; "/lib/private"]
                   (NewLibrary locked_fs quote_plain 2 "/lib" ["mp3"] ["m3u"]).2 _)
                "/lib/private" _).
  - vm_compute. reflexivity.
  - set_solver.
Defined.

(** X9.  On a tree that is at most [depth] directories deep the recursion
    of the constructor ends: it returns with any call depth budget of at
    least [depth], and with the same results for all of them. *)
Theorem returns_on_bounded_trees :
  forall (ReadDir : FS) (Quote : string -> string) (depth : nat) (d : string)
         (extensions playlistExtensions : list string),
    shallow ReadDir depth d = true ->
    exists t lib e,
      forall fuel, depth <= fuel ->
        NewLibrary ReadDir Quote fuel d extensions playlistExtensions
        = (t, Returned lib e).
Proof.
  intros ReadDir Quote depth d extensions playlistExtensions Hs.
  destruct (NewLibrary_returns ReadDir Quote extensions playlistExtensions _ _ Hs)
    as (t & lib & e & H).
  exists t, lib, e. intros fuel Hle. by eapply NewLibrary_more_fuel.
Qed.

Lemma returns_on_bounded_trees_witness :
  exists t lib e,
    forall fuel, 2 <= fuel ->
      NewLibrary locked_fs quote_plain fuel "/lib" ["mp3"] ["m3u"] = (t, Returned lib e).
Proof.
  refine (returns_on_bounded_trees locked_fs quote_plain 2 "/lib" ["mp3"] ["m3u"] _).
  vm_compute. reflexivity.
Defined.

Lemma loop_ext (rec1 rec2 : string -> list string * outcome)
    (d : string) (ext pext : gset string) (fs : list DirEntry) :
  (forall p, rec1 p = rec2 p) ->
  forall lib,
    NewLibrary_loop rec1 d ext pext lib fs = NewLibrary_loop rec2 d ext pext lib fs.
Proof.
  intros Hrec. induction fs as [|f fs IH]; intros lib; [done|].
  destruct (IsDir f) eqn:Hf.
  - rewrite !loop_dir by done. rewrite <- Hrec.
    destruct (rec1 (entry_path d f)) as [tc [|nest [err|]]]; try done.
    by rewrite IH.
  - rewrite !loop_file by done. apply IH.
Qed.

(** X10.  Only the sets of extensions matter: two pairs of lists with the
    same media extensions and the same playlist extensions, in any order
    and with any repetitions, and no extension in both, give the same
    result (the same reads, the same library, the same error). *)
Theorem extension_lists_are_sets :
  forall (ReadDir : FS) (Quote : string -> string)
         (extensions extensions' playlistExtensions playlistExtensions' : list string),
    (forall x, x ∈ extensions <-> x ∈ extensions') ->
    (forall x, x ∈ playlistExtensions <-> x ∈ playlistExtensions') ->
    Forall (fun e => e ∉ extensions) playlistExtensions ->
    forall (fuel : nat) (d : string),
      NewLibrary ReadDir Quote fuel d extensions playlistExtensions
      = NewLibrary ReadDir Quote fuel d extensions' playlistExtensions'.
Proof.
  intros ReadDir Quote extensions extensions' playlistExtensions playlistExtensions'
         Hext Hpext Hdis.
  assert (Forall (fun e => e ∉ extensions') playlistExtensions') as Hdis'.
  { apply Forall_forall. intros x Hx. rewrite <- Hext.
    rewrite Forall_forall in Hdis. apply Hdis. by apply Hpext. }
  assert (ext_table ∅ extensions = ext_table ∅ extensions') as Htab.
  { apply set_eq. intros x. by rewrite !ext_table_list. }
  destruct (pext_table_disjoint (ext_table ∅ extensions) playlistExtensions ∅)
    as [pext Hp].
  { eapply Forall_impl; [exact Hdis|]. intros e He. by rewrite ext_table_list. }
  destruct (pext_table_disjoint (ext_table ∅ extensions') playlistExtensions' ∅)
    as [pext' Hp'].
  { eapply Forall_impl; [exact Hdis'|]. intros e He. by rewrite ext_table_list. }
  assert (pext = pext') as <-.
  { apply set_eq. intros x.
    rewrite (proj2 (pext_table_inr _ _ _ _ Hp) x), (proj2 (pext_table_inr _ _ _ _ Hp') x).
    rewrite Hpext. done. }
  induction fuel as [|fuel IH]; intros d; [done|].
  rewrite !NewLibrary_unfold, Hp, Hp', <- Htab.
  destruct extensions as [|a l], extensions' as [|a' l']; cbn [length].
  - done.
  - exfalso. eapply elem_of_nil, Hext. left.
  - exfalso. eapply elem_of_nil, Hext. left.
  - rewrite !decide_False by done.
    destruct (ReadDir d) as [fs|pe]; [|done]. case_decide; [done|].
    by rewrite (loop_ext _ _ _ _ _ _ IH).
Qed.

Lemma extension_lists_are_sets_witness :
  NewLibrary album_fs quote_plain 2 "/lib" ["mp3"; "ogg"] ["m3u"]
  = NewLibrary album_fs quote_plain 2 "/lib" ["ogg"; "mp3"; "ogg"] ["m3u"; "m3u"].
Proof.
  refine (extension_lists_are_sets album_fs quote_plain
            ["mp3"; "ogg"] ["ogg"; "mp3"; "ogg"] ["m3u"] ["m3u"; "m3u"] _ _ _ 2 "/lib").
  - set_solver.
  - set_solver.
  - repeat constructor. set_solver.
Defined.

(** ** Further properties: names, titles and paths *)

Lemma append_assoc_s (a b c : string) : (a +:+ b) +:+ c = a +:+ b +:+ c.
Proof. induction a as [|x a IH]; [done|]. rewrite !append_cons. by rewrite IH. Qed.

Lemma append_nil_r_s (a : string) : a +:+ "" = a.
Proof. induction a as [|x a IH]; [done|]. rewrite append_cons. by rewrite IH. Qed.

Lemma rev_app_eq (s t : string) : String.rev_app s t = String.rev s +:+ t.
Proof.
  revert t. induction s as [|a s IH]; intros t; [done|].
  unfold String.rev. cbn [String.rev_app]. rewrite (IH (String a t)), (IH (String a "")).
  by rewrite append_assoc_s.
Qed.

Lemma rev_cons_s (a : ascii) (s : string) :
  String.rev (String a s) = String.rev s +:+ String a "".
Proof. unfold String.rev at 1. cbn [String.rev_app]. apply rev_app_eq. Qed.

Lemma rev_append_s (a b : string) :
  String.rev (a +:+ b) = String.rev b +:+ String.rev a.
Proof.
  induction a as [|x a IH].
  - change ("" +:+ b) with b. by rewrite append_nil_r_s.
  - rewrite append_cons, !rev_cons_s, IH. by rewrite append_assoc_s.
Qed.

Lemma rev_involutive_s (s : string) : String.rev (String.rev s) = s.
Proof.
  induction s as [|a s IH]; [done|].
  rewrite rev_cons_s, rev_append_s, IH. done.
Qed.

Lemma has_separator_append (a b : string) :
  has_separator (a +:+ b) = has_separator a || has_separator b.
Proof.
  induction a as [|x a IH]; [done|]. rewrite append_cons. cbn [has_separator].
  by rewrite IH, orb_assoc.
Qed.

Lemma has_separator_rev (s : string) : has_separator (String.rev s) = has_separator s.
Proof.
  induction s as [|a s IH]; [done|].
  rewrite rev_cons_s, has_separator_append, IH. cbn [has_separator].
  rewrite orb_false_r. apply orb_comm.
Qed.

Lemma until_separator_whole (a : string) :
  has_separator a = false -> filepath.until_separator a = a.
Proof.
  induction a as [|x a IH]; [done|]. cbn [has_separator filepath.until_separator].
  intros [Hx Ha]%orb_false_iff. rewrite Hx. by rewrite IH.
Qed.

Lemma until_separator_stop (a b : string) :
  has_separator a = false ->
  filepath.until_separator (a +:+ String "/" b) = a.
Proof.
  induction a as [|x a IH]; [done|]. rewrite append_cons.
  cbn [has_separator filepath.until_separator].
  intros [Hx Ha]%orb_false_iff. rewrite Hx. by rewrite IH.
Qed.

Lemma drop_separators_none (a b : string) :
  a <> "" -> has_separator a = false ->
  filepath.drop_separators (a +:+ b) = a +:+ b.
Proof.
  destruct a as [|c a]; [done|]. rewrite append_cons.
  cbn [has_separator filepath.drop_separators].
  intros _ [Hc _]%orb_false_iff. by rewrite Hc.
Qed.

Lemma rev_nonempty (s : string) : s <> "" -> String.rev s <> "".
Proof.
  destruct s as [|a s]; [done|]. intros _. rewrite rev_cons_s.
  by destruct (String.rev s).
Qed.

(** The base name of a path that ends with the element [n]. *)
Lemma Base_last_element (q n : string) :
  n <> "" -> has_separator n = false ->
  filepath.Base n = n /\ filepath.Base (q +:+ "/" +:+ n) = n.
Proof.
  intros Hn Hsep.
  pose proof (rev_nonempty _ Hn) as Hrn.
  pose proof (has_separator_rev n) as Hrs. rewrite Hsep in Hrs.
  split.
  - unfold filepath.Base. rewrite decide_False by done.
    rewrite <- (append_nil_r_s (String.rev n)).
    rewrite drop_separators_none by done. rewrite append_nil_r_s.
    rewrite until_separator_whole, rev_involutive_s by done.
    by rewrite decide_False.
  - unfold filepath.Base. rewrite decide_False.
    2: { destruct q; [done|]. by rewrite append_cons. }
    rewrite rev_append_s. change ("/" +:+ n) with (String "/" n).
    rewrite rev_cons_s, append_assoc_s.
    change (String "/" "" +:+ String.rev q) with (String "/" (String.rev q)).
    rewrite drop_separators_none by done.
    rewrite until_separator_stop, rev_involutive_s by done. by rewrite decide_False.
Qed.

Lemma elements_nonempty (path : string) : filepath.elements path <> [].
Proof.
  destruct path as [|c path]; [done|]. cbn [filepath.elements].
  destruct (filepath.IsPathSeparator c); [done|].
  by destruct (filepath.elements path).
Qed.

Lemma elements_simple (n : string) :
  has_separator n = false -> filepath.elements n = [n].
Proof.
  induction n as [|c n IH]; [done|]. cbn [has_separator filepath.elements].
  intros [Hc Hn]%orb_false_iff. by rewrite Hc, IH.
Qed.

Lemma elements_append (a b : string) :
  filepath.elements (a +:+ "/" +:+ b) = filepath.elements a ++ filepath.elements b.
Proof.
  induction a as [|c a IH]; [done|]. rewrite append_cons. cbn [filepath.elements].
  destruct (filepath.IsPathSeparator c); rewrite IH; [done|].
  pose proof (elements_nonempty a). by destruct (filepath.elements a).
Qed.

Lemma strings_Join_snoc (xs : list string) (n sep : string) :
  strings.Join (xs ++ [n]) sep
  = match xs with
    | [] => n
    | _ => strings.Join xs sep +:+ sep +:+ n
    end.
Proof.
  induction xs as [|x xs IH]; [done|]. cbn [app strings.Join].
  destruct xs as [|y xs]; [done|]. cbn [app] in *. rewrite IH.
  by rewrite !append_assoc_s.
Qed.

Lemma valid_name_inv (n : string) :
  valid_name n = true ->
  n <> "" /\ n <> "." /\ n <> ".." /\ has_separator n = false.
Proof.
  unfold valid_name. rewrite !andb_true_iff, !negb_true_iff, !bool_decide_eq_false.
  tauto.
Qed.

(** Joining a listed name to a directory gives a path that ends with the
    name as its last element. *)
Lemma Join_valid_name (d n : string) :
  valid_name n = true ->
  filepath.Join d n = n \/ exists q, filepath.Join d n = q +:+ "/" +:+ n.
Proof.
  intros (Hn & Hdot & Hdots & Hsep)%valid_name_inv.
  assert (forall r out, filepath.clean_elem r out n = n :: out) as Hstep.
  { intros r out. unfold filepath.clean_elem. by rewrite !decide_False. }
  unfold filepath.Join. destruct (decide (d = "")) as [->|Hd].
  - rewrite decide_False by done. left.
    unfold filepath.Clean. rewrite decide_False by done.
    rewrite elements_simple by done. cbn [foldl]. rewrite Hstep.
    destruct n as [|c n]; [done|]. cbn [has_separator filepath.rooted] in *.
    apply orb_false_iff in Hsep as [-> _]. done.
  - unfold filepath.Clean. rewrite decide_False.
    2: { destruct d; [done|]. by rewrite append_cons. }
    rewrite elements_append, (elements_simple n), foldl_app by done. cbn [foldl].
    rewrite Hstep.
    set (out := foldl _ _ _). set (r := filepath.rooted _).
    rewrite reverse_cons, strings_Join_snoc.
    destruct r, (reverse out) as [|x xs].
    + right. by exists "".
    + right. exists ("/" +:+ strings.Join (x :: xs) "/"). by rewrite append_assoc_s.
    + by left.
    + right. eauto.
Qed.

Lemma Base_Join (d n : string) :
  valid_name n = true -> filepath.Base (filepath.Join d n) = n.
Proof.
  intros Hv. pose proof (valid_name_inv _ Hv) as (Hn & _ & _ & Hsep).
  destruct (Join_valid_name d n Hv) as [-> | [q ->]].
  - by apply (Base_last_element "" n).
  - by apply (Base_last_element q n).
Qed.

Lemma entry_path_inj (d : string) (f g : DirEntry) :
  valid_name (Name f) = true -> valid_name (Name g) = true ->
  entry_path d f = entry_path d g -> Name f = Name g.
Proof.
  intros Hf Hg H. apply (f_equal filepath.Base) in H.
  unfold entry_path in H. by rewrite !Base_Join in H.
Qed.

Lemma leaf_recognized (d : string) (extensions playlistExtensions : list string)
    (f : DirEntry) :
  (is_media extensions f || is_playlist extensions playlistExtensions f = false /\
   leaf d extensions playlistExtensions f = None) \/
  (is_media extensions f || is_playlist extensions playlistExtensions f = true /\
   exists e, leaf d extensions playlistExtensions f = Some e /\
             Files e = [entry_path d f] /\ Nested e = [] /\
             Title e = filepath.Base (entry_path d f) /\
             (match e with PPlaylistFile _ => true | _ => false end
              = negb (is_media extensions f))).
Proof.
  unfold leaf. destruct (is_media extensions f); [right; split; [done|]; eauto 10|].
  destruct (is_playlist extensions playlistExtensions f);
    [right; split; [done|]; eauto 10 | by left].
Qed.

Section Names.

Variable ReadDir : FS.
Variable Quote : string -> string.
Variables (extensions playlistExtensions : list string).

Abbreviation recognized f :=
  (is_media extensions f || is_playlist extensions playlistExtensions f = true).

Lemma leaves_of_listing (d : string) (fs : list DirEntry) :
  Forall (fun f => valid_name (Name f) = true) fs ->
  Title <$> omap (leaf d extensions playlistExtensions) fs
  = Name <$> filter (fun f => recognized f) fs /\
  Files <$> omap (leaf d extensions playlistExtensions) fs
  = (fun f => [entry_path d f]) <$> filter (fun f => recognized f) fs /\
  Forall (fun e => Nested e = []) (omap (leaf d extensions playlistExtensions) fs) /\
  (fun e => match e with
            | PPlaylistFile _ => "[playlist] " +:+ Title e +:+ newline
            | _ => Title e +:+ newline
            end) <$> omap (leaf d extensions playlistExtensions) fs
  = entry_line extensions <$> filter (fun f => recognized f) fs.
Proof.
  induction 1 as [|f fs Hf Hall (IH1 & IH2 & IH3 & IH4)]; [done|].
  cbn [omap list_omap].
  destruct (leaf_recognized d extensions playlistExtensions f)
    as [[Hr ->] | [Hr (e & -> & HF & HN & HT & Hk)]].
  - rewrite filter_cons_False by congruence. done.
  - rewrite filter_cons_True by done. cbn [fmap list_fmap option_bind mbind].
    unfold entry_path in HT. rewrite Base_Join in HT by done.
    repeat split.
    + cbn. by rewrite HT, <- IH1.
    + cbn. by rewrite HF, <- IH2.
    + by constructor.
    + cbn. rewrite <- IH4. f_equal. unfold entry_line. rewrite HT.
      destruct e; cbn in Hk.
      * symmetry in Hk. apply negb_false_iff in Hk. by rewrite Hk.
      * symmetry in Hk. apply negb_true_iff in Hk. by rewrite Hk.
      * symmetry in Hk. apply negb_false_iff in Hk. by rewrite Hk.
Qed.

Lemma nested_of_listing (fuel : nat) (d : string) (fs : list DirEntry)
    (ns : list Library) :
  Forall (fun f => valid_name (Name f) = true) fs ->
  Forall2 (fun f c => exists tc,
               NewLibrary ReadDir Quote fuel (entry_path d f)
                 extensions playlistExtensions
               = (tc, Returned c None))
          (filter (fun f => IsDir f = true) fs) ns ->
  Library_Title <$> ns = Name <$> filter (fun f => IsDir f = true) fs /\
  (fun c => "[dir] -----" +:+ Library_Title c +:+ "-----" +:+ newline
              +:+ Library_String c +:+ newline) <$> ns
  = zip_with (fun f c => "[dir] -----" +:+ Name f +:+ "-----" +:+ newline
                           +:+ Library_String c +:+ newline)
             (filter (fun f => IsDir f = true) fs) ns.
Proof.
  intros Hvalid Hall.
  assert (Forall (fun f => valid_name (Name f) = true)
                 (filter (fun f => IsDir f = true) fs)) as Hv.
  { apply Forall_forall. intros f [_ Hf]%list_elem_of_filter.
    rewrite Forall_forall in Hvalid. by apply Hvalid. }
  clear Hvalid. induction Hall as [|f c fs' ns' (tc & Hc) Hall IH]; [done|].
  apply Forall_cons in Hv as [Hf Hv]. destruct (IH Hv) as [IH1 IH2].
  assert (Library_Title c = Name f) as Ht.
  { unfold Library_Title. rewrite (returned_root _ _ _ _ _ _ _ _ _ Hc).
    by apply Base_Join. }
  split; cbn; [by rewrite Ht, IH1 | by rewrite Ht, IH2].
Qed.

End Names.

Lemma String_entries_lines (es : list Playable) (sb : string) :
  String_entries sb es
  = sb +:+ foldr String.append ""
             ((fun e => match e with
                        | PPlaylistFile _ => "[playlist] " +:+ Title e +:+ newline
                        | _ => Title e +:+ newline
                        end) <$> es).
Proof.
  revert sb. induction es as [|e es IH]; intros sb; cbn [String_entries].
  - cbn. by rewrite append_nil_r_s.
  - destruct e; rewrite IH; cbn [fmap list_fmap foldr]; by rewrite !append_assoc_s.
Qed.

Lemma Library_String_lines (l : Library) :
  Library_String l
  = foldr String.append ""
      ((fun c => "[dir] -----" +:+ Library_Title c +:+ "-----" +:+ newline
                   +:+ Library_String c +:+ newline) <$> nested l)
    +:+ foldr String.append ""
          ((fun e => match e with
                     | PPlaylistFile _ => "[playlist] " +:+ Title e +:+ newline
                     | _ => Title e +:+ newline
                     end) <$> entries l).
Proof.
  destruct l as [es ns r]. cbn [Library_String nested entries].
  rewrite String_entries_lines. f_equal.
  assert (forall sb,
    (fix nested_loop (sb : string) (ns : list Library) : string :=
       match ns with
       | [] => sb
       | d :: ns' =>
           nested_loop
             (sb +:+ "[dir] -----" +:+ Library_Title d +:+ "-----" +:+ newline
                 +:+ Library_String d +:+ newline) ns'
       end) sb ns
    = sb +:+ foldr String.append ""
               ((fun c => "[dir] -----" +:+ Library_Title c +:+ "-----" +:+ newline
                            +:+ Library_String c +:+ newline) <$> ns)) as Hloop.
  { induction ns as [|n ns IH]; intros sb.
    - cbn. by rewrite append_nil_r_s.
    - rewrite IH. cbn [fmap list_fmap foldr]. by rewrite !append_assoc_s. }
  apply (Hloop "").
Qed.

(** X11.  When the names of a listing are proper names (not empty, not
    [.] or [..], without separator), the titles of the entries of the
    built node are the names of the recognised files, in listing order
    and with their extensions; each entry refers to the one path of its
    file and has nothing nested; and the titles of the nested libraries
    are the names of the directories. *)
Theorem titles_are_names :
  forall (ReadDir : FS) (Quote : string -> string) (fuel : nat) (d : string)
         (extensions playlistExtensions : list string) (t : list string)
         (lib : Library) (fs : list DirEntry),
    NewLibrary ReadDir Quote fuel d extensions playlistExtensions
    = (t, Returned lib None) ->
    ReadDir d = inl fs ->
    Forall (fun f => valid_name (Name f) = true) fs ->
    Title <$> entries lib
    = Name <$> filter (fun f => is_media extensions f
                                || is_playlist extensions playlistExtensions f = true) fs /\
    Files <$> entries lib
    = (fun f => [entry_path d f])
        <$> filter (fun f => is_media extensions f
                             || is_playlist extensions playlistExtensions f = true) fs /\
    Forall (fun e => Nested e = []) (entries lib) /\
    Library_Title <$> Library_Nested lib
    = Name <$> filter (fun f => IsDir f = true) fs.
Proof.
  intros ReadDir Quote fuel d extensions playlistExtensions t lib fs H Hrd Hvalid.
  apply NewLibrary_shape in H as (fuel' & fs' & -> & Hrd' & _ & _ & Hent & Hall).
  rewrite Hrd in Hrd'. simplify_eq.
  destruct (leaves_of_listing extensions playlistExtensions d fs' Hvalid)
    as (H1 & H2 & H3 & _).
  rewrite Hent. repeat split; try done.
  by destruct (nested_of_listing _ _ _ _ _ _ _ _ Hvalid Hall).
Qed.

Lemma titles_are_names_witness :
  Library_Title <$> [mkLibrary [PPlaylistFile (mkPlaylistFile ["/lib/Album/list.m3u"] "list.m3u");
                                PMediaFile (mkMediaFile "/lib/Album/one.mp3" "one.mp3")]
                       [] "/lib/Album"]
  = Name <$> filter (fun f => IsDir f = true) [dir "Album"; file "intro.mp3"].
Proof.
  refine (proj2 (proj2 (proj2
    (titles_are_names album_fs quote_plain 2 "/lib" ["mp3"] ["m3u"] ["/lib"; "/lib/Album"]
       (mkLibrary [PMediaFile (mkMediaFile "/lib/intro.mp3" "intro.mp3")]
          [mkLibrary [PPlaylistFile (mkPlaylistFile ["/lib/Album/list.m3u"] "list.m3u");
                      PMediaFile (mkMediaFile "/lib/Album/one.mp3" "one.mp3")]
             [] "/lib/Album"] "/lib")
       [dir "Album"; file "intro.mp3"] _ _ _)))).
  - vm_compute. reflexivity.
  - vm_compute. reflexivity.
  - repeat constructor.
Defined.

(** X12.  When the names of a listing are proper and pairwise distinct,
    [Files()] of the built node has no path twice, holds the path of no
    entry of the listing other than a media file, and holds no path of
    any playlist entry of the node. *)
Theorem files_are_distinct :
  forall (ReadDir : FS) (Quote : string -> string) (fuel : nat) (d : string)
         (extensions playlistExtensions : list string) (t : list string)
         (lib : Library) (fs : list DirEntry),
    NewLibrary ReadDir Quote fuel d extensions playlistExtensions
    = (t, Returned lib None) ->
    ReadDir d = inl fs ->
    Forall (fun f => valid_name (Name f) = true) fs ->
    NoDup (Name <$> fs) ->
    NoDup (Library_Files lib) /\
    (forall f, f ∈ fs -> is_media extensions f = false ->
               entry_path d f ∉ Library_Files lib) /\
    (forall p x, PPlaylistFile p ∈ entries lib -> x ∈ playlistFile_Files p ->
                 x ∉ Library_Files lib).
Proof.
  intros ReadDir Quote fuel d extensions playlistExtensions t lib fs H Hrd Hvalid Hnd.
  apply NewLibrary_shape in H as (fuel' & fs' & -> & Hrd' & _ & _ & Hent & _).
  rewrite Hrd in Hrd'. simplify_eq. rewrite Forall_forall in Hvalid.
  assert (forall f g, f ∈ fs' -> g ∈ fs' -> entry_path d f = entry_path d g -> f = g)
    as Hinj.
  { intros f g Hf Hg Hfg. eapply (NoDup_fmap_elem_inj Name); [done..|].
    eapply entry_path_inj; eauto. }
  assert (Library_Files lib
          = entry_path d <$> filter (fun f => is_media extensions f = true) fs')
    as Hfiles by (by rewrite Library_Files_omap, Hent, media_path_leaf).
  assert (forall f, f ∈ fs' -> is_media extensions f = false ->
                    entry_path d f ∉ Library_Files lib) as Hnot.
  { intros f Hf Hm Hin. rewrite Hfiles in Hin.
    apply list_elem_of_fmap in Hin as (g & Hfg & Hg).
    apply list_elem_of_filter in Hg as [Hgm Hg].
    assert (f = g) as -> by auto. congruence. }
  split; [|split; [done|]].
  - rewrite Hfiles. apply NoDup_fmap_2_strong.
    + intros f g [_ Hf]%list_elem_of_filter [_ Hg]%list_elem_of_filter. auto.
    + apply NoDup_filter. by eapply NoDup_fmap_1.
  - intros p x Hp Hx. rewrite Hent in Hp.
    apply list_elem_of_omap in Hp as (f & Hf & Hleaf).
    unfold leaf in Hleaf. destruct (is_media extensions f) eqn:Hm; [discriminate|].
    destruct (is_playlist extensions playlistExtensions f); [|discriminate].
    simplify_eq. cbn in Hx. apply list_elem_of_singleton in Hx as ->. auto.
Qed.

Lemma files_are_distinct_witness :
  NoDup (Library_Files
           (mkLibrary
              [PMediaFile (mkMediaFile "/music/a.mp3" "a.mp3");
               PPlaylistFile (mkPlaylistFile ["/music/b.m3u"] "b.m3u")] [] "/music")).
Proof.
  refine (proj1
    (files_are_distinct music_fs quote_plain 1 "/music" ["mp3"] ["m3u"] ["/music"] _
       [file "a.mp3"; file "b.m3u"; file "c.png"] _ _ _ _)).
  - vm_compute. reflexivity.
  - vm_compute. reflexivity.
  - repeat constructor.
  - vm_compute. repeat constructor; set_solver.
Defined.

(** X13.  When the names of a listing are proper, [String()] of the built
    node is, for each directory of the listing in order, a line
    [[dir] -----<name>-----], the dump of the library built from it and
    a newline; and then, for each recognised file of the listing in order,
    a line with its name, after the marker [[playlist] ] if it is a
    playlist. *)
Theorem String_lists_directories_then_files :
  forall (ReadDir : FS) (Quote : string -> string) (fuel : nat) (d : string)
         (extensions playlistExtensions : list string) (t : list string)
         (lib : Library) (fs : list DirEntry),
    NewLibrary ReadDir Quote fuel d extensions playlistExtensions
    = (t, Returned lib None) ->
    ReadDir d = inl fs ->
    Forall (fun f => valid_name (Name f) = true) fs ->
    Library_String lib
    = foldr String.append ""
        (zip_with (fun f c => "[dir] -----" +:+ Name f +:+ "-----" +:+ newline
                                +:+ Library_String c +:+ newline)
                  (filter (fun f => IsDir f = true) fs) (nested lib))
      +:+ foldr String.append ""
            (entry_line extensions
               <$> filter (fun f => is_media extensions f
                                    || is_playlist extensions playlistExtensions f = true)
                          fs).
Proof.
  intros ReadDir Quote fuel d extensions playlistExtensions t lib fs H Hrd Hvalid.
  apply NewLibrary_shape in H as (fuel' & fs' & -> & Hrd' & _ & _ & Hent & Hall).
  rewrite Hrd in Hrd'. simplify_eq.
  destruct (leaves_of_listing extensions playlistExtensions d fs' Hvalid)
    as (_ & _ & _ & Hlines).
  destruct (nested_of_listing _ _ _ _ _ _ _ _ Hvalid Hall) as [_ Hdirs].
  by rewrite Library_String_lines, Hent, Hlines, Hdirs.
Qed.

Lemma String_lists_directories_then_files_witness :
  Library_String
    (mkLibrary [PMediaFile (mkMediaFile "/lib/intro.mp3" "intro.mp3")]
       [mkLibrary [PPlaylistFile (mkPlaylistFile ["/lib/Album/list.m3u"] "list.m3u");
                   PMediaFile (mkMediaFile "/lib/Album/one.mp3" "one.mp3")]
          [] "/lib/Album"] "/lib")
  = ("[dir] -----Album-----" +:+ newline
       +:+ ("[playlist] list.m3u" +:+ newline +:+ "one.mp3" +:+ newline) +:+ newline)
    +:+ "intro.mp3" +:+ newline.
Proof.
  rewrite (String_lists_directories_then_files album_fs quote_plain 2 "/lib"
             ["mp3"] ["m3u"] ["/lib"; "/lib/Album"] _ [dir "Album"; file "intro.mp3"]).
  - vm_compute. reflexivity.
  - vm_compute. reflexivity.
  - vm_compute. reflexivity.
  - repeat constructor.
Defined.

(** X14.  Built from an absolute root, every node of the tree has an
    absolute root, and every path its [Files()] returns and every path
    any of its entries refers to is absolute. *)
Theorem absolute_root_gives_absolute_paths :
  forall (ReadDir : FS) (Quote : string -> string) (fuel : nat) (d : string)
         (extensions playlistExtensions : list string) (t : list string)
         (lib n : Library),
    NewLibrary ReadDir Quote fuel d extensions playlistExtensions
    = (t, Returned lib None) ->
    filepath.IsAbs d = true ->
    node_of lib n ->
    filepath.IsAbs (Library_Root n) = true /\
    Forall (fun p => filepath.IsAbs p = true) (Library_Files n) /\
    Forall (fun e => Forall (fun p => filepath.IsAbs p = true) (Files e)) (entries n).
Proof.
  intros ReadDir Quote fuel d extensions playlistExtensions t lib n H Habs Hn.
  destruct (absolute_root_absolute_paths _ _ _ _ _ _ Hn _ _ _ H Habs) as [Hroot Hent].
  split; [done|]. split; [|done].
  rewrite Library_Files_omap. apply Forall_forall. intros p Hp.
  apply list_elem_of_omap in Hp as (e & He & Hpath).
  rewrite Forall_forall in Hent. specialize (Hent e He).
  destruct e; cbn in Hpath; simplify_eq.
  by apply Forall_cons in Hent as [? _].
Qed.

Lemma absolute_root_gives_absolute_paths_witness :
  Forall (fun p => filepath.IsAbs p = true)
    (Library_Files
       (mkLibrary [PPlaylistFile (mkPlaylistFile ["/lib/Album/list.m3u"] "list.m3u");
                   PMediaFile (mkMediaFile "/lib/Album/one.mp3" "one.mp3")]
          [] "/lib/Album")).
Proof.
  refine (proj1 (proj2
    (absolute_root_gives_absolute_paths album_fs quote_plain 2 "/lib" ["mp3"] ["m3u"]
       ["/lib"; "/lib/Album"]
       (mkLibrary [PMediaFile (mkMediaFile "/lib/intro.mp3" "intro.mp3")]
          [mkLibrary [PPlaylistFile (mkPlaylistFile ["/lib/Album/list.m3u"] "list.m3u");
                      PMediaFile (mkMediaFile "/lib/Album/one.mp3" "one.mp3")]
             [] "/lib/Album"] "/lib")
       _ _ _ _))).
  - vm_compute. reflexivity.
  - reflexivity.
  - eapply node_below; [|apply node_here]. cbn. set_solver.
Defined.

(** X15.  [HasPermission] refuses exactly one case: administrators are
    enabled, the request is a command, and the user name is not in the
    list of administrators (names compared for equality, case and all). *)
Theorem HasPermission_refuses_only_non_admin_commands :
  forall (AdminsEnabled : bool) (Admins : list string) (username : string)
         (command : bool),
    HasPermission AdminsEnabled Admins username command = false <->
    AdminsEnabled = true /\ command = true /\ username ∉ Admins.
Proof.
  intros AdminsEnabled Admins username command.
  assert (Admins_loop username Admins = false <-> username ∉ Admins) as Hloop.
  { induction Admins as [|a l IH]; cbn [Admins_loop].
    - split; [intros _; apply not_elem_of_nil | done].
    - rewrite not_elem_of_cons. case_decide; [|tauto].
      split; [done | by intros [? _]]. }
  unfold HasPermission. destruct AdminsEnabled, command; cbn [andb];
    try (split; [done | by intros (? & ? & _)]).
  rewrite Hloop. tauto.
Qed.

(** X16.  A name with more than one [.] is classified by everything after
    its first [.], so with extension lists whose members have no [.] such
    a file is skipped: the entries of a built node come from the files of
    the listing whose name has at most one [.] (a name [song.live.mp3]
    has the extension [live.mp3], and [mp3] does not recognise it). *)
Theorem names_with_two_dots_are_skipped :
  forall (ReadDir : FS) (Quote : string -> string) (fuel : nat) (d : string)
         (extensions playlistExtensions : list string) (t : list string)
         (lib : Library) (fs : list DirEntry),
    NewLibrary ReadDir Quote fuel d extensions playlistExtensions
    = (t, Returned lib None) ->
    ReadDir d = inl fs ->
    Forall (fun e => strings.Index e "." = None) extensions ->
    Forall (fun e => strings.Index e "." = None) playlistExtensions ->
    entries lib
    = omap (leaf d extensions playlistExtensions)
           (filter (fun f => strings.Index (extension (Name f)) "." = None) fs) /\
    (forall before after f,
        strings.Index before "." = None -> strings.Index after "." <> None ->
        f ∈ fs -> Name f = before +:+ "." +:+ after ->
        leaf d extensions playlistExtensions f = None).
Proof.
  intros ReadDir Quote fuel d extensions playlistExtensions t lib fs H Hrd He Hp.
  apply NewLibrary_shape in H as (fuel' & fs' & -> & Hrd' & _ & _ & Hent & _).
  rewrite Hrd in Hrd'. simplify_eq.
  assert (forall f, strings.Index (extension (Name f)) "." <> None ->
                    leaf d extensions playlistExtensions f = None) as Hskip.
  { intros f Hf. unfold leaf, is_media, is_playlist.
    rewrite Forall_forall in He, Hp.
    rewrite (bool_decide_eq_false_2 (extension (Name f) ∈ extensions))
      by (intros Hin; by apply Hf, He).
    rewrite (bool_decide_eq_false_2 (extension (Name f) ∈ playlistExtensions))
      by (intros Hin; by apply Hf, Hp).
    by rewrite !andb_false_r. }
  split.
  - rewrite Hent. clear -Hskip. induction fs' as [|f fs IH]; [done|].
    cbn [omap list_omap].
    destruct (decide (strings.Index (extension (Name f)) "." = None)) as [Hf|Hf].
    + rewrite filter_cons_True by done. cbn [omap list_omap]. by rewrite IH.
    + rewrite filter_cons_False by done. by rewrite (Hskip f Hf).
  - intros before after f Hb Ha _ Hname. apply Hskip.
    unfold extension. by rewrite Hname, Cut_first_dot.
Qed.

Lemma names_with_two_dots_are_skipped_witness :
  leaf "/music" ["mp3"] ["m3u"] (file "song.live.mp3") = None.
Proof.
  refine (proj2
    (names_with_two_dots_are_skipped
       (fs_of [("/music", [file "a.mp3"; file "song.live.mp3"])]) quote_plain 1
       "/music" ["mp3"] ["m3u"] ["/music"] _ [file "a.mp3"; file "song.live.mp3"]
       _ _ _ _) "song" "live.mp3" (file "song.live.mp3") _ _ _ _).
  - vm_compute. reflexivity.
  - vm_compute. reflexivity.
  - by repeat constructor.
  - by repeat constructor.
  - reflexivity.
  - vm_compute. discriminate.
  - set_solver.
  - reflexivity.
Defined.
